(** * jsDAV: the Redis CardDAV backend ([lib/CardDAV/backends/redis.js])

    A shallow embedding of [jsCardDAV_Backend_Redis].  The Redis server is
    an explicit state (a typed key space); every backend method is a
    function from that state to an outcome and a new state.  The nested
    callbacks of the source become a small state-and-error monad: a Redis
    error is passed to the callback ([Fail]), an exception raised inside a
    reply handler escapes it and the callback is never invoked ([Threw]).

    Requests are run one after the other: the round trips of two requests
    are not interleaved.  JavaScript numbers are modelled by [Z] (plus
    [NaN]).  A JavaScript number is a double: it agrees with the integer as
    long as the absolute value stays within 2^53 ([safe_integer] below), and
    the arithmetic of the model ([parseInt], [++], [String(n)], the integer
    that the client makes of a reply) is the one of the source within that
    range only.  Every statement below about the value of a ctag or of an
    identifier is made within it.  Strings are byte strings; [parseInt] sees
    the characters that the bytes encode, which are the bytes themselves for
    ASCII text ([ascii_only] below). *)

From Stdlib Require Import ZArith Ascii String List DecimalString DecimalZ DecimalPos.
From stdpp Require Import gmap strings list fin_maps sorting finite.

Local Open Scope string_scope.
Set Warnings "-register-all".

(** ** JavaScript values *)

Inductive jsnum :=
  | NaN
  | Num (z : Z).

Inductive jsval :=
  | JUndefined
  | JNull
  | JBool (b : bool)
  | JNumber (n : jsnum)
  | JString (s : string)
  | JArray (elems : list jsval)
  | JObject (fields : list (string * jsval)).

Inductive jserror :=
  | TypeError
  | SyntaxError
  | BadRequest (msg : string)
  | RedisError (msg : string).

(** [String(n)] for an integer [n]: its decimal digits.  This is what the
    source computes for the integers up to 2^53 in absolute value. *)
Definition Number_toString (z : Z) : string :=
  NilZero.string_of_int (Z.to_int z).

Definition jsnum_toString (n : jsnum) : string :=
  match n with
  | NaN => "NaN"
  | Num z => Number_toString z
  end.

(** [++n], on the integers: the source computes it on doubles, with the same
    result for an [n] such that [n] and [n + 1] are within 2^53 in absolute
    value. *)
Definition jsnum_incr (n : jsnum) : jsnum :=
  match n with
  | NaN => NaN
  | Num z => Num (z + 1)
  end.

Fixpoint join (sep : string) (l : list string) : string :=
  match l with
  | [] => ""
  | [x] => x
  | x :: r => x ++ sep ++ join sep r
  end.

(** The abstract operation ToString, as used by [+] on strings and by the
    Redis client on command arguments. *)
Fixpoint js_toString (v : jsval) : string :=
  match v with
  | JUndefined => "undefined"
  | JNull => "null"
  | JBool true => "true"
  | JBool false => "false"
  | JNumber n => jsnum_toString n
  | JString s => s
  | JArray elems =>
      join "," (map (fun e => match e with
                              | JUndefined | JNull => ""
                              | _ => js_toString e
                              end) elems)
  | JObject _ => "[object Object]"
  end.

(** Truthiness, as tested by [!v] and [? :]. *)
Definition js_truthy (v : jsval) : bool :=
  match v with
  | JUndefined | JNull => false
  | JBool b => b
  | JNumber NaN => false
  | JNumber (Num z) => negb (z =? 0)%Z
  | JString s => negb (String.eqb s "")
  | JArray _ | JObject _ => true
  end.

(** [v.length]; only consulted on values that are neither [null] nor
    [undefined]. *)
Definition js_length (v : jsval) : jsval :=
  match v with
  | JString s => JNumber (Num (Z.of_nat (String.length s)))
  | JArray elems => JNumber (Num (Z.of_nat (List.length elems)))
  | _ => JUndefined
  end.

(** [v[i]]: a [TypeError] on [null] and [undefined]. *)
Definition js_index (v : jsval) (i : nat) : jserror + jsval :=
  match v with
  | JUndefined | JNull => inl TypeError
  | JArray elems => inr (nth i elems JUndefined)
  | JString s =>
      inr (match String.get i s with
           | Some c => JString (String c "")
           | None => JUndefined
           end)
  | _ => inr JUndefined
  end.

(** Strict equality [===] against a primitive: arrays and objects are
    compared by reference, and the ones met here are always fresh. *)
Definition js_strict_eq (a b : jsval) : bool :=
  match a, b with
  | JUndefined, JUndefined => true
  | JNull, JNull => true
  | JBool x, JBool y => Bool.eqb x y
  | JNumber (Num x), JNumber (Num y) => (x =? y)%Z
  | JString x, JString y => String.eqb x y
  | _, _ => false
  end.

(** [Array.prototype.indexOf] *)
Fixpoint array_indexOf (x : jsval) (l : list jsval) : option nat :=
  match l with
  | [] => None
  | y :: r => if js_strict_eq y x then Some 0 else S <$> array_indexOf x r
  end.

(** [l.splice(i, 1)] *)
Definition array_splice1 (i : nat) (l : list jsval) : list jsval :=
  take i l ++ drop (S i) l.

(** *** [parseInt(s, 10)]

    Leading blanks, a sign, then the longest run of decimal digits, read as an
    integer.  The blanks are the ASCII ones: in a text that is not ASCII the
    source also skips the other white space of Unicode.  The integer is the
    exact one: the source rounds it to a double, the same number within 2^53
    in absolute value. *)

Definition is_digit (c : ascii) : bool :=
  ((48 <=? nat_of_ascii c) && (nat_of_ascii c <=? 57))%nat.

Definition is_space (c : ascii) : bool :=
  let n := nat_of_ascii c in
  ((n =? 32) || ((9 <=? n) && (n <=? 13)))%nat.

Fixpoint skip_spaces (s : string) : string :=
  match s with
  | String c r => if is_space c then skip_spaces r else s
  | EmptyString => s
  end.

Fixpoint take_digits (s : string) : string :=
  match s with
  | String c r => if is_digit c then String c (take_digits r) else ""
  | EmptyString => ""
  end.

Definition digits_value (ds : string) : Z :=
  match NilEmpty.uint_of_string ds with
  | Some d => Z.of_uint d
  | None => 0
  end.

Definition parseInt (s : string) : jsnum :=
  let s1 := skip_spaces s in
  let '(neg, s2) :=
    match s1 with
    | String c r =>
        if Ascii.eqb c "-" then (true, r)
        else if Ascii.eqb c "+" then (false, r)
        else (false, s1)
    | EmptyString => (false, s1)
    end in
  match take_digits s2 with
  | EmptyString => NaN
  | ds => Num (if neg : bool then - digits_value ds else digits_value ds)
  end.

(** ** The Redis server

    One key space; a key holds a string, a hash or a sorted set.  A command
    applied to a key of another type answers with an error and changes
    nothing. *)

Inductive rvalue :=
  | RString (s : string)
  | RHash (h : gmap string string)
  | RZSet (z : gmap string Z).

Abbreviation store := (gmap string rvalue).

Inductive reply :=
  | RNil
  | RBulk (s : string)
  | RInteger (z : Z)
  | RStatus (s : string)
  | RError (msg : string)
  | RMulti (items : list reply).

Inductive command :=
  | HGET (key field : string)
  | HMGET (key : string) (fields : list string)
  | HSET (key field value : string)
  | HMSET (key : string) (pairs : list (string * string))
  | DEL (key : string)
  | INCR (key : string)
  | ZADD (key : string) (score : Z) (member : string)
  | ZREM (key member : string)
  | ZRANGE_ALL (key : string).

Definition WRONGTYPE : string :=
  "WRONGTYPE Operation against a key holding the wrong kind of value".

Definition NOTINT : string := "ERR value is not an integer or out of range".

Definition opt_reply (o : option string) : reply :=
  match o with
  | Some v => RBulk v
  | None => RNil
  end.

Definition hash_set_all (pairs : list (string * string)) (h : gmap string string)
  : gmap string string :=
  fold_left (fun acc p => <[p.1 := p.2]> acc) pairs h.

(** The integer held by a string, as [INCR] reads it: canonical decimal
    notation only. *)
Definition redis_int (s : string) : option Z :=
  match NilZero.int_of_string s with
  | Some d =>
      let z := Z.of_int d in
      if String.eqb (Number_toString z) s then Some z else None
  | None => None
  end.

Definition LLONG_MAX : Z := 9223372036854775807.
Definition LLONG_MIN : Z := -9223372036854775808.

(** Order of a sorted set: by score, then by member. *)
Definition zset_le (a b : string * Z) : Prop :=
  (a.2 < b.2)%Z \/ (a.2 = b.2 /\ String.leb a.1 b.1 = true).

Global Instance zset_le_dec a b : Decision (zset_le a b).
Proof. unfold zset_le. apply _. Defined.

Definition zset_members (z : gmap string Z) : list string :=
  fst <$> merge_sort zset_le (map_to_list z).

Definition exec1 (c : command) (s : store) : reply * store :=
  match c with
  | HGET key field =>
      match s !! key with
      | None => (RNil, s)
      | Some (RHash h) => (opt_reply (h !! field), s)
      | Some _ => (RError WRONGTYPE, s)
      end
  | HMGET key fields =>
      match s !! key with
      | None => (RMulti (map (fun _ => RNil) fields), s)
      | Some (RHash h) => (RMulti (map (fun f => opt_reply (h !! f)) fields), s)
      | Some _ => (RError WRONGTYPE, s)
      end
  | HSET key field value =>
      match s !! key with
      | None => (RInteger 1, <[key := RHash {[field := value]}]> s)
      | Some (RHash h) =>
          (RInteger (if h !! field is Some _ then 0 else 1),
           <[key := RHash (<[field := value]> h)]> s)
      | Some _ => (RError WRONGTYPE, s)
      end
  | HMSET key pairs =>
      match s !! key with
      | None => (RStatus "OK", <[key := RHash (hash_set_all pairs ∅)]> s)
      | Some (RHash h) => (RStatus "OK", <[key := RHash (hash_set_all pairs h)]> s)
      | Some _ => (RError WRONGTYPE, s)
      end
  | DEL key =>
      match s !! key with
      | None => (RInteger 0, s)
      | Some _ => (RInteger 1, delete key s)
      end
  | INCR key =>
      match s !! key with
      | None => (RInteger 1, <[key := RString "1"]> s)
      | Some (RString v) =>
          match redis_int v with
          | Some n =>
              if decide (LLONG_MIN <= n < LLONG_MAX)%Z
              then (RInteger (n + 1), <[key := RString (Number_toString (n + 1))]> s)
              else (RError NOTINT, s)
          | None => (RError NOTINT, s)
          end
      | Some _ => (RError WRONGTYPE, s)
      end
  | ZADD key score member =>
      match s !! key with
      | None => (RInteger 1, <[key := RZSet {[member := score]}]> s)
      | Some (RZSet z) =>
          (RInteger (if z !! member is Some _ then 0 else 1),
           <[key := RZSet (<[member := score]> z)]> s)
      | Some _ => (RError WRONGTYPE, s)
      end
  | ZREM key member =>
      match s !! key with
      | None => (RInteger 0, s)
      | Some (RZSet z) =>
          match z !! member with
          | None => (RInteger 0, s)
          | Some _ =>
              let z' := delete member z in
              (RInteger 1,
               if decide (z' = ∅) then delete key s else <[key := RZSet z']> s)
          end
      | Some _ => (RError WRONGTYPE, s)
      end
  | ZRANGE_ALL key =>
      match s !! key with
      | None => (RMulti [], s)
      | Some (RZSet z) => (RMulti (RBulk <$> zset_members z), s)
      | Some _ => (RError WRONGTYPE, s)
      end
  end.

(** [MULTI] ... [EXEC]: the queued commands run back to back; a command that
    fails leaves its error in the reply list and the others still run. *)
Fixpoint exec_all (cs : list command) (s : store) : list reply * store :=
  match cs with
  | [] => ([], s)
  | c :: r =>
      let '(rep, s1) := exec1 c s in
      let '(reps, s2) := exec_all r s1 in
      (rep :: reps, s2)
  end.

(** ** What the module requires

    [JSON] is the host's; [Db], [Util] and the CardDAV plugin are modules of
    the package that the backend loads with [require]. *)

Class Runtime := {
  JSON_parse : string -> option jsval;   (* [None]: a SyntaxError is thrown *)
  JSON_stringify : jsval -> string;
}.

Class Imports := {
  NS_CARDDAV : string;                   (* jsCardDAV_Plugin.NS_CARDDAV *)
  fromMultiBulk : reply -> jsval;        (* Db.fromMultiBulk *)
  md5 : string -> string;                (* Util.md5 *)
}.

(** ** Callbacks as a monad *)

Inductive outcome (A : Type) :=
  | Ret (a : A)          (* callback(null, a) *)
  | Fail (e : jserror)   (* callback(e) *)
  | Threw (e : jserror)  (* an exception leaves a reply handler: no callback *)
  | Silent.              (* the handler returns without calling back *)

Arguments Ret {A} a.
Arguments Fail {A} e.
Arguments Threw {A} e.
Arguments Silent {A}.

Definition M (A : Type) : Type := store -> outcome A * store.

Definition ret {A} (a : A) : M A := fun s => (Ret a, s).
Definition fail {A} (e : jserror) : M A := fun s => (Fail e, s).
Definition throw {A} (e : jserror) : M A := fun s => (Threw e, s).
Definition silent {A} : M A := fun s => (Silent, s).

Definition bind {A B} (m : M A) (k : A -> M B) : M B :=
  fun s =>
    match m s with
    | (Ret a, s') => k a s'
    | (Fail e, s') => (Fail e, s')
    | (Threw e, s') => (Threw e, s')
    | (Silent, s') => (Silent, s')
    end.

Notation "'do' x <- m ; k" := (bind m (fun x => k))
  (at level 10, x name, m at level 100, k at level 200).

(** [redis.cmd(..., function(err, res) { if (err) return callback(err); ... })] *)
Definition send (c : command) : M reply :=
  fun s =>
    match exec1 c s with
    | (RError msg, s') => (Fail (RedisError msg), s')
    | (r, s') => (Ret r, s')
    end.

(** [redis.multi(commands).exec(function(err, res) { ... })] *)
Definition multi_exec (cs : list command) : M reply :=
  fun s => let '(rs, s') := exec_all cs s in (Ret (RMulti rs), s').

(** [res.toString("utf8")] on the answer of [HGET]: a bulk string, or nil,
    on which the call raises a [TypeError]. *)
Definition reply_string (r : reply) : option string :=
  match r with
  | RBulk v => Some v
  | _ => None
  end.

(** The integer of a reply, as the client hands it to the reply handler: a
    JavaScript number, equal to the integer of the server within 2^53 in
    absolute value. *)
Definition reply_integer (r : reply) : Z :=
  match r with
  | RInteger z => z
  | _ => 0
  end.

(** The body of [try { ids = JSON.parse(res.toString("utf8")); }]. *)
Definition parse_ids `{Runtime} (res : reply) : jserror + jsval :=
  match reply_string res with
  | None => inl TypeError
  | Some v =>
      match JSON_parse v with
      | Some ids => inr ids
      | None => inl SyntaxError
      end
  end.

(** [arr.map(function(x, idx) { ... })] with a body that may throw. *)
Fixpoint map_idx {A B} (f : A -> nat -> jserror + B) (idx : nat) (l : list A)
  : jserror + list B :=
  match l with
  | [] => inr []
  | x :: r =>
      match f x idx with
      | inl e => inl e
      | inr y =>
          match map_idx f (S idx) r with
          | inl e => inl e
          | inr ys => inr (y :: ys)
          end
      end
  end.

(** Plain objects: own properties in insertion order. *)
Fixpoint obj_set (k : string) (v : jsval) (o : list (string * jsval))
  : list (string * jsval) :=
  match o with
  | [] => [(k, v)]
  | (k', v') :: r =>
      if String.eqb k' k then (k, v) :: r else (k', v') :: obj_set k v r
  end.

(** Arguments of [HMSET] taken from an object: [push(property, o[property])]. *)
Definition hmset_args (o : list (string * jsval)) : list (string * string) :=
  map (fun p => (p.1, js_toString p.2)) o.

(** ** The backend *)

Record backend := {
  addressBooksTableName : string;
  cardsTableName : string;
}.

Definition or_default (o : option string) (d : string) : string :=
  match o with
  | Some v => if String.eqb v EmptyString then d else v
  | None => d
  end.

Definition initialize (addressBooksTableName cardsTableName : option string)
  : backend :=
  {| addressBooksTableName := or_default addressBooksTableName "addressbooks";
     cardsTableName := or_default cardsTableName "cards" |}.

Definition dquote : string := String (ascii_of_nat 34) EmptyString.

(** A row of [getAddressBooksForUser].  The property supported-address-data,
    the same constant object in every row, is left out. *)
Record addressbook := {
  ab_id : jsval;
  ab_uri : jsval;
  ab_principaluri : jsval;
  ab_displayname : jsval;   (* "{DAV:}displayname" *)
  ab_getctag : jsval;       (* "{http://calendarserver.org/ns/}getctag" *)
  ab_description : jsval;   (* "{" + NS_CARDDAV + "}addressbook-description" *)
}.

Record card := {
  card_uri : jsval;
  carddata : jsval;
  lastmodified : jsval;
}.

Section Backend.
Context `{Runtime} `{Imports}.
Variable self : backend.

(** *** Keys *)

Definition principalsKey : string :=
  addressBooksTableName self ++ "/pricipalUri".

Definition idKey : string := addressBooksTableName self ++ "/ID".

Definition addressBookKey (id : string) : string :=
  addressBooksTableName self ++ "/" ++ id.

(** The index that [getCards] and [deleteAddressBook] read. *)
Definition cardsIndexKey (id : string) : string :=
  addressBooksTableName self ++ "/" ++ id ++ "/" ++ cardsTableName self.

(** The index that [createCard] and [deleteCard] write. *)
Definition sharedIndexKey : string :=
  addressBooksTableName self ++ "/" ++ cardsTableName self.

Definition cardKey (id : string) (cardUri : string) : string :=
  cardsTableName self ++ "/" ++ id ++ "/" ++ cardUri.

Definition displaynameProp : string := "{DAV:}displayname".

Definition descriptionProp : string :=
  "{" ++ NS_CARDDAV ++ "}addressbook-description".

(** *** getAddressBooksForUser *)

Definition addressBookRow (ids : list jsval) (data : jsval) (idx : nat)
  : jserror + addressbook :=
  match js_index data 0, js_index data 1, js_index data 2,
        js_index data 4, js_index data 3 with
  | inr d0, inr d1, inr d2, inr d4, inr d3 =>
      inr {| ab_id := nth idx ids JUndefined;
             ab_uri := d0;
             ab_principaluri := d1;
             ab_displayname := d2;
             ab_getctag := d4;
             ab_description := d3 |}
  | _, _, _, _, _ => inl TypeError
  end.

Definition getAddressBooksForUser (principalUri : string)
  : M (list addressbook) :=
  do res <- send (HGET principalsKey principalUri);
  match parse_ids res with
  | inl ex => fail ex
  | inr (JArray ids) =>
      let commands :=
        map (fun id => HMGET (addressBookKey (js_toString id))
                             ["uri"; "principaluri"; "description"; "ctag"])
            ids in
      do res <- multi_exec commands;
      match fromMultiBulk res with
      | JArray rows =>
          match map_idx (addressBookRow ids) 0 rows with
          | inl e => throw e
          | inr addressBooks => ret addressBooks
          end
      | _ => throw TypeError
      end
  | inr _ => throw TypeError
  end.

(** *** updateAddressBook *)

(** The [for ... in] loop over the mutations; [None] when the [default]
    branch is reached. *)
Fixpoint collectUpdates (mutations updates : list (string * jsval))
  : option (list (string * jsval)) :=
  match mutations with
  | [] => Some updates
  | (property, newValue) :: rest =>
      if String.eqb property displaynameProp
      then collectUpdates rest (obj_set "displayname" newValue updates)
      else if String.eqb property descriptionProp
      then collectUpdates rest (obj_set "description" newValue updates)
      else None
  end.

Definition updateAddressBook (addressBookId : Z)
    (mutations : list (string * jsval)) : M bool :=
  match collectUpdates mutations [] with
  | None => ret false
  | Some updates =>
      if (List.length updates =? 0)%nat then ret false
      else
        do res <- send (HGET (addressBookKey (Number_toString addressBookId)) "ctag");
        match reply_string res with
        | None => throw TypeError
        | Some v =>
            let ctag := jsnum_incr (parseInt v) in
            let command :=
              ("ctag", jsnum_toString ctag) :: hmset_args updates in
            do _ <- send (HMSET (addressBookKey (Number_toString addressBookId)) command);
            ret true
        end
  end.

(** *** createAddressBook *)

(** The [for ... in] loop over the properties; [inl property] when the
    [default] branch is reached. *)
Fixpoint collectValues (properties values : list (string * jsval))
  : string + list (string * jsval) :=
  match properties with
  | [] => inr values
  | (property, newValue) :: rest =>
      if String.eqb property displaynameProp
      then collectValues rest (obj_set "displayname" newValue values)
      else if String.eqb property descriptionProp
      then collectValues rest (obj_set "description" newValue values)
      else inl property
  end.

Definition createAddressBook (principalUri url : string)
    (properties : list (string * jsval)) : M reply :=
  let values :=
    [("displayname", JNull); ("description", JNull);
     ("principaluri", JString principalUri); ("uri", JString url)] in
  match collectValues properties values with
  | inl property => fail (BadRequest ("Unknown property: " ++ property))
  | inr values =>
      do res <- send (HGET principalsKey principalUri);
      let ids :=
        match parse_ids res with
        | inr ids => ids
        | inl _ => JArray []
        end in
      do r <- send (INCR idKey);
      let id := reply_integer r in
      match ids with
      | JArray l =>
          let ids := JArray (l ++ [JNumber (Num id)]) in
          multi_exec
            [HSET principalsKey principalUri (JSON_stringify ids);
             HMSET (addressBookKey (Number_toString id))
                   (("ctag", "1") :: hmset_args values)]
      | _ => throw TypeError
      end
  end.

(** *** deleteAddressBook *)

(** [idx = ids.indexOf(addressBookId); if (idx > -1) ids.splice(idx, 1)] *)
Definition removeId (addressBookId : Z) (ids : jsval) : jserror + jsval :=
  match ids with
  | JArray l =>
      match array_indexOf (JNumber (Num addressBookId)) l with
      | Some idx => inr (JArray (array_splice1 idx l))
      | None => inr ids
      end
  | JString v =>
      match String.index 0 (Number_toString addressBookId) v with
      | Some _ => inl TypeError
      | None => inr ids
      end
  | _ => inl TypeError
  end.

Definition deleteAddressBook (addressBookId : Z) : M reply :=
  let id := Number_toString addressBookId in
  let commands := [DEL (addressBookKey id); DEL (cardsIndexKey id)] in
  do res <- send (HGET (addressBookKey id) "pricipaluri");
  match reply_string res with
  | None => throw TypeError
  | Some principalUri =>
      do res <- send (HGET principalsKey principalUri);
      let ids :=
        match parse_ids res with
        | inr ids => ids
        | inl _ => JArray []
        end in
      match removeId addressBookId ids with
      | inl e => throw e
      | inr ids =>
          let commands :=
            (commands ++
             [HSET principalsKey principalUri (JSON_stringify ids)])%list in
          do res <- send (ZRANGE_ALL (cardsIndexKey id));
          match fromMultiBulk res with
          | JArray cardUris =>
              multi_exec
                (commands ++
                 map (fun cardUri => DEL (cardKey id (js_toString cardUri)))
                     cardUris)%list
          | _ => throw TypeError
          end
      end
  end.

(** *** getCards, getCard *)

Definition cardRow (cardUris : list jsval) (data : jsval) (idx : nat)
  : jserror + card :=
  match js_index data 0, js_index data 1 with
  | inr d0, inr d1 =>
      inr {| card_uri := nth idx cardUris JUndefined;
             carddata := d0;
             lastmodified := d1 |}
  | _, _ => inl TypeError
  end.

Definition getCards (addressbookId : Z) : M (list card) :=
  let id := Number_toString addressbookId in
  do res <- send (ZRANGE_ALL (cardsIndexKey id));
  match fromMultiBulk res with
  | JArray cardUris =>
      let commands :=
        map (fun cardUri => HMGET (cardKey id (js_toString cardUri))
                                  ["carddata"; "lastmodified"])
            cardUris in
      do res <- multi_exec commands;
      match fromMultiBulk res with
      | JArray rows =>
          match map_idx (cardRow cardUris) 0 rows with
          | inl e => throw e
          | inr cards => ret cards
          end
      | _ => throw TypeError
      end
  | _ => throw TypeError
  end.

(** The result is a card, or [None] for the value [false]. *)
Definition getCard (addressBookId : Z) (cardUri : string) : M (option card) :=
  let id := Number_toString addressBookId in
  do res <- send (HMGET (cardKey id cardUri) ["carddata"; "lastmodified"]);
  let res := fromMultiBulk res in
  if negb (js_truthy res) || negb (js_truthy (js_length res))
  then silent
  else
    if js_truthy res && js_truthy (js_length res)
    then
      match js_index res 0, js_index res 1 with
      | inr d0, inr d1 =>
          ret (Some {| card_uri := JString cardUri;
                       carddata := d0;
                       lastmodified := d1 |})
      | _, _ => throw TypeError
      end
    else ret None.

(** *** createCard, updateCard, deleteCard; [now] is [Date.now()] *)

Definition etag (cardData : string) : string :=
  dquote ++ md5 cardData ++ dquote.

Definition bumpCtag (id : string) (commands : list command) : M reply :=
  do ctag <- send (HGET (addressBookKey id) "ctag");
  match reply_string ctag with
  | None => throw TypeError
  | Some v =>
      let ctag := jsnum_incr (parseInt v) in
      multi_exec
        (commands ++
         [HSET (addressBookKey id) "ctag" (jsnum_toString ctag)])%list
  end.

Definition createCard (addressBookId : Z) (cardUri cardData : string)
    (now : Z) : M string :=
  let id := Number_toString addressBookId in
  let commands :=
    [HMSET (cardKey id cardUri)
           [("carddata", cardData); ("lastmodified", Number_toString now)];
     ZADD sharedIndexKey now cardUri] in
  do _ <- bumpCtag id commands;
  ret (etag cardData).

Definition updateCard (addressBookId : Z) (cardUri cardData : string)
    (now : Z) : M string :=
  let id := Number_toString addressBookId in
  let commands :=
    [HMSET (cardKey id cardUri)
           [("carddata", cardData); ("lastmodified", Number_toString now)]] in
  do _ <- bumpCtag id commands;
  ret (etag cardData).

Definition deleteCard (addressBookId : Z) (cardUri : string) : M bool :=
  let id := Number_toString addressBookId in
  let commands :=
    [DEL (cardKey id cardUri);
     ZREM sharedIndexKey cardUri] in
  do _ <- bumpCtag id commands;
  ret true.

End Backend.

(** ** Reference instances of the required modules *)

(** Modelled from the spec: [Db.fromMultiBulk] ([lib/shared/db.js]) is not
    under src/.  Section 2 of the specification has the results of the store
    "translated back into plain records" and says no more; the translation
    taken here is the plain one: a bulk string becomes its text and a
    multi-bulk reply the array of the translations of its items, with the
    empty string for a missing item and the empty array for a missing
    reply. *)
Fixpoint Db_fromMultiBulk (data : reply) : jsval :=
  match data with
  | RNil => JArray []
  | RBulk v => JString v
  | RInteger z => JString (Number_toString z)
  | RStatus v => JString v
  | RError msg => JString msg
  | RMulti items =>
      JArray (map (fun buffer => match buffer with
                                 | RNil => JString EmptyString
                                 | _ => Db_fromMultiBulk buffer
                                 end) items)
  end.

(** Modelled from the spec: [jsCardDAV_Plugin.NS_CARDDAV] ([lib/CardDAV/plugin.js])
    is not under src/; section 6 fixes the recognised names to display-name
    and address-book-description, the latter in the CardDAV namespace. *)
Definition CardDAV_namespace : string := "urn:ietf:params:xml:ns:carddav".

Definition reference_imports (digest : string -> string) : Imports :=
  {| NS_CARDDAV := CardDAV_namespace;
     fromMultiBulk := Db_fromMultiBulk;
     md5 := digest |}.

(** A fragment of [JSON], enough to run the backend on the id sets it writes
    itself: the texts that [JSON.stringify] produces for arrays of integers
    are read back; every other text is rejected. *)
Fixpoint split_commas (s : string) : list string :=
  match s with
  | EmptyString => [EmptyString]
  | String c r =>
      if Ascii.eqb c "," then EmptyString :: split_commas r
      else
        match split_commas r with
        | h :: t => String c h :: t
        | [] => [String c EmptyString]
        end
  end.

Fixpoint strip_last (c : ascii) (s : string) : option string :=
  match s with
  | EmptyString => None
  | String a EmptyString => if Ascii.eqb a c then Some EmptyString else None
  | String a r => option_map (String a) (strip_last c r)
  end.

Fixpoint parse_integers (items : list string) : option (list jsval) :=
  match items with
  | [] => Some []
  | x :: r =>
      match redis_int x, parse_integers r with
      | Some z, Some l => Some (JNumber (Num z) :: l)
      | _, _ => None
      end
  end.

Definition parse_integer_array (s : string) : option jsval :=
  match s with
  | String c r =>
      if Ascii.eqb c "[" then
        match strip_last "]" r with
        | Some inner =>
            if String.eqb inner EmptyString then Some (JArray [])
            else option_map JArray (parse_integers (split_commas inner))
        | None => None
        end
      else None
  | EmptyString => None
  end.

Fixpoint stringify (v : jsval) : string :=
  match v with
  | JUndefined | JNull | JNumber NaN => "null"
  | JBool true => "true"
  | JBool false => "false"
  | JNumber (Num z) => Number_toString z
  | JString s => dquote ++ s ++ dquote
  | JArray elems => "[" ++ join "," (map stringify elems) ++ "]"
  | JObject _ => "{}"
  end.

Definition reference_runtime : Runtime :=
  {| JSON_parse := parse_integer_array; JSON_stringify := stringify |}.

(** * Vocabulary of the statements *)

(** The number of times [c] occurs in [s]. *)
Fixpoint occurrences (c : ascii) (s : string) : nat :=
  match s with
  | EmptyString => 0
  | String a r => (if Ascii.eqb a c then 1 else 0) + occurrences c r
  end.

(** The field of a hash, as [HGET] answers it. *)
Definition hget (s : store) (key field : string) : option string :=
  match s !! key with
  | Some (RHash h) => h !! field
  | _ => None
  end.

Definition is_hash (s : store) (k : string) : Prop :=
  exists h, s !! k = Some (RHash h).

Definition hash_or_free (s : store) (k : string) : Prop :=
  match s !! k with
  | Some (RHash _) | None => True
  | Some _ => False
  end.

(** The one key that a command reads or writes. *)
Definition command_key (c : command) : string :=
  match c with
  | HGET k _ | HMGET k _ | HSET k _ _ | HMSET k _ | DEL k | INCR k
  | ZADD k _ _ | ZREM k _ | ZRANGE_ALL k => k
  end.

Definition read_only (c : command) : bool :=
  match c with
  | HGET _ _ | HMGET _ _ | ZRANGE_ALL _ => true
  | _ => false
  end.

(** The ctag of an address book, as the backend reads it. *)
Definition ctagOf (self : backend) (s : store) (addressBookId : Z)
  : option jsnum :=
  parseInt <$> hget s (addressBookKey self (Number_toString addressBookId)) "ctag".

(** The methods of the backend, as requests. *)
Inductive request :=
  | GetAddressBooksForUser (principalUri : string)
  | UpdateAddressBook (addressBookId : Z) (mutations : list (string * jsval))
  | CreateAddressBook (principalUri url : string) (properties : list (string * jsval))
  | DeleteAddressBook (addressBookId : Z)
  | GetCards (addressBookId : Z)
  | GetCard (addressBookId : Z) (cardUri : string)
  | CreateCard (addressBookId : Z) (cardUri cardData : string) (now : Z)
  | UpdateCard (addressBookId : Z) (cardUri cardData : string) (now : Z)
  | DeleteCard (addressBookId : Z) (cardUri : string).

(** The store after a request, whatever the request answers. *)
Definition perform `{Runtime} `{Imports} (self : backend) (r : request)
    (s : store) : store :=
  match r with
  | GetAddressBooksForUser p => (getAddressBooksForUser self p s).2
  | UpdateAddressBook a m => (updateAddressBook self a m s).2
  | CreateAddressBook p u ps => (createAddressBook self p u ps s).2
  | DeleteAddressBook a => (deleteAddressBook self a s).2
  | GetCards a => (getCards self a s).2
  | GetCard a u => (getCard self a u s).2
  | CreateCard a u d now => (createCard self a u d now s).2
  | UpdateCard a u d now => (updateCard self a u d now s).2
  | DeleteCard a u => (deleteCard self a u s).2
  end.

(** The last identifier handed out by [INCR] on the counter. *)
Definition idCounter (self : backend) (s : store) : option Z :=
  match s !! idKey self with
  | None => Some 0%Z
  | Some (RString v) => redis_int v
  | Some _ => None
  end.

(** While the record at [k] is a hash, its ctag is a number not below [n]. *)
Definition ctag_at_least (k : string) (n : Z) (s : store) : Prop :=
  match s !! k with
  | Some (RHash h) =>
      exists n', parseInt <$> h !! "ctag" = Some (Num n') /\ (n <= n')%Z
  | _ => True
  end.

(** The command [c] never lowers the ctag of the record at [k] below [n]. *)
Definition keeps (k : string) (n : Z) (c : command) : Prop :=
  forall s, ctag_at_least k n s -> ctag_at_least k n (exec1 c s).2.

(** A concrete deployment for the examples: the default table names and
    the reference modules.  The digest stands in for [Util.md5]; nothing
    below depends on which function it is. *)
Definition plain_digest (s : string) : string := s.

Definition example_backend : backend := initialize None None.

Definition example_imports : Imports := reference_imports plain_digest.

(** The record that [createAddressBook("alice", "home", {})] writes. *)
Definition alice_record : gmap string string :=
  hash_set_all [("ctag", "1"); ("displayname", "null"); ("description", "null");
                ("principaluri", "alice"); ("uri", "home")] ∅.

(** The store after [createAddressBook("alice", "home", {})] on an empty
    server. *)
Definition alice_store : store :=
  (@createAddressBook reference_runtime example_imports example_backend
     "alice" "home" [] ∅).2.

Section Examples.
Local Existing Instance reference_runtime.
Local Existing Instance example_imports.
Let self := example_backend.

Definition bob_body : string := "BEGIN:VCARD...END:VCARD".

(** Address book 1 of alice with the cards c1 and c2, all made through the
    backend. *)
Definition two_cards_store : store :=
  (createCard self 1 "c2" bob_body 2000
     (createCard self 1 "c1" bob_body 1000 alice_store).2).2.

(** The same, with the owner also under the name that [deleteAddressBook]
    reads. *)
Definition two_cards_patched : store :=
  (exec1 (HSET "addressbooks/1" "pricipaluri" "alice") two_cards_store).2.

Definition c1_card : card :=
  {| card_uri := JString "c1";
     carddata := JString bob_body;
     lastmodified := JString "1000" |}.

Definition home_row : addressbook :=
  {| ab_id := JNumber (Num 1);
     ab_uri := JString "home";
     ab_principaluri := JString "alice";
     ab_displayname := JString "null";
     ab_getctag := JUndefined;
     ab_description := JString "1" |}.
End Examples.

(** The two property names of the [switch] in [updateAddressBook] and
    [createAddressBook]. *)
Definition recognized `{Imports} (property : string) : bool :=
  String.eqb property displaynameProp || String.eqb property descriptionProp.

Definition is_hash_value (v : rvalue) : bool :=
  match v with
  | RHash _ => true
  | _ => false
  end.

(** The sorted sets and the strings of [s] and [s'] are the same. *)
Definition same_non_hashes (s s' : store) : Prop :=
  forall k v, is_hash_value v = false -> s' !! k = Some v <-> s !! k = Some v.

(** [o[k]] *)
Fixpoint obj_get (k : string) (o : list (string * jsval)) : option jsval :=
  match o with
  | [] => None
  | (k', v) :: r => if String.eqb k' k then Some v else obj_get k r
  end.

(** The field of the record that a recognised property is stored in. *)
Definition field_of `{Imports} (property : string) : option string :=
  if String.eqb property displaynameProp then Some "displayname"
  else if String.eqb property descriptionProp then Some "description"
  else None.

(** The value that a mutation set gives to a field: the one of the last
    mutation that is stored in that field. *)
Fixpoint new_value `{Imports} (field : string) (mutations : list (string * jsval))
  : option jsval :=
  match mutations with
  | [] => None
  | (property, v) :: rest =>
      match new_value field rest with
      | Some v' => Some v'
      | None => if decide (field_of property = Some field) then Some v else None
      end
  end.

(** Modelled from the spec: [Util.md5] ([lib/shared/util.js]) is not under
    src/.  Section 3 has the etag "deterministically derived from body via a
    content hash", the glossary "a quoted content fingerprint": a function of
    the body alone, whose values all have one length, the 32 hexadecimal
    characters of an MD5 digest. *)
Definition fixed_length_digest `{Imports} : Prop :=
  forall body : string, String.length (md5 body) = 32.

(** A digest of that length for the examples: the first 32 characters of the
    body, filled up with zeros. *)
Definition prefix_digest (body : string) : string :=
  String.substring 0 32 (body ++ "00000000000000000000000000000000").

(** Every character, and every string of a given length. *)
Definition all_ascii : list ascii := map ascii_of_nat (seq 0 256).

Fixpoint strings_of_length (n : nat) : list string :=
  match n with
  | 0 => [EmptyString]
  | S n => flat_map (fun c => map (String c) (strings_of_length n)) all_ascii
  end.

(** The integers that a JavaScript number holds exactly, next to one
    another: up to 2^53 in absolute value. *)
Definition safe_integer (z : Z) : Prop := (- 2 ^ 53 <= z <= 2 ^ 53)%Z.

(** A text of ASCII characters only: its bytes are its characters. *)
Fixpoint ascii_only (s : string) : bool :=
  match s with
  | EmptyString => true
  | String c r => (nat_of_ascii c <? 128)%nat && ascii_only r
  end.

(** The server after [createAddressBook("alice", "home", {})], with the id
    set of alice overwritten by a text that is not JSON. *)
Definition garbled_alice_store : store :=
  (exec1 (HSET "addressbooks/pricipalUri" "alice" "not json") alice_store).2.

(** A server where the id set of alice is not JSON and address book 7 names
    her in the field that [deleteAddressBook] reads. *)
Definition garbled_store : store :=
  <["addressbooks/pricipalUri" := RHash {["alice" := "not json"]}]>
    (<["addressbooks/7" := RHash (<["pricipaluri" := "alice"]> {["ctag" := "1"]})]> ∅).

(** The commands that change the server, as the backend sends them. *)
Inductive issued (self : backend) : command -> Prop :=
  | issued_record b pairs :
      issued self (HMSET (addressBookKey self (Number_toString b)) pairs)
  | issued_ctag b v :
      issued self (HSET (addressBookKey self (Number_toString b)) "ctag" v)
  | issued_ids principalUri v :
      issued self (HSET (principalsKey self) principalUri v)
  | issued_counter : issued self (INCR (idKey self))
  | issued_card b cardUri pairs :
      issued self (HMSET (cardKey self (Number_toString b) cardUri) pairs)
  | issued_zadd score member : issued self (ZADD (sharedIndexKey self) score member)
  | issued_zrem member : issued self (ZREM (sharedIndexKey self) member)
  | issued_del_record b : issued self (DEL (addressBookKey self (Number_toString b)))
  | issued_del_index b : issued self (DEL (cardsIndexKey self (Number_toString b)))
  | issued_del_card b cardUri :
      issued self (DEL (cardKey self (Number_toString b) cardUri)).

(** A run of requests, one after the other. *)
Fixpoint perform_all `{Runtime} `{Imports} (self : backend) (rs : list request)
    (s : store) : store :=
  match rs with
  | [] => s
  | r :: rest => perform_all self rest (perform self r s)
  end.

(** The counter is readable and has handed out the identifier [a]. *)
Definition handed_out (self : backend) (a : Z) (s : store) : Prop :=
  exists c, idCounter self s = Some c /\ (a <= c)%Z.

(** ** Vocabulary of the further properties *)

(** The id set that [createAddressBook] and [deleteAddressBook] go on with:
    what [JSON.parse] makes of the text stored for the principal, or the
    empty array of the [catch] when there is no text or it does not parse. *)
Definition ids_or_empty `{Runtime} (stored : option string) : jsval :=
  match parse_ids (opt_reply stored) with
  | inr ids => ids
  | inl _ => JArray []
  end.

(** An array of identifiers. *)
Definition numbers (ids : list Z) : list jsval :=
  (fun z => JNumber (Num z)) <$> ids.

(** A [JSON] that also reads the text [null], next to the arrays of
    integers. *)
Definition lenient_runtime : Runtime :=
  {| JSON_parse := fun text =>
       if String.eqb text "null" then Some JNull else parse_integer_array text;
     JSON_stringify := stringify |}.

(** An address book without cards on a server that has handed out three
    identifiers. *)
Definition carol_store : store :=
  <["addressbooks/ID" := RString "3"]>
    (<["addressbooks/pricipalUri" := RHash {["carol" := "[3]"]}]>
       (<["addressbooks/3" :=
            RHash (hash_set_all [("ctag", "1"); ("displayname", "null");
                                 ("description", "null");
                                 ("principaluri", "carol"); ("uri", "work")] ∅)]> ∅)).

(** The text that [HMSET] stores for a field of a new record: the value
    given by the properties, or [null]. *)
Definition initial_text `{Imports} (field : string)
    (properties : list (string * jsval)) : string :=
  match new_value field properties with
  | Some v => js_toString v
  | None => "null"
  end.

(** The row of [getAddressBooksForUser] for a record that has just been
    created. *)
Definition created_row `{Imports} (id : Z) (principalUri url : string)
    (properties : list (string * jsval)) : addressbook :=
  {| ab_id := JNumber (Num id);
     ab_uri := JString url;
     ab_principaluri := JString principalUri;
     ab_displayname := JString (initial_text "description" properties);
     ab_getctag := JUndefined;
     ab_description := JString "1" |}.

(** The sorted set at a key, when the key holds one or is free. *)
Definition scores (s : store) (key : string) : option (gmap string Z) :=
  match s !! key with
  | None => Some ∅
  | Some (RZSet z) => Some z
  | Some _ => None
  end.

(** A server where the id set of alice is the text [null]. *)
Definition null_ids_store : store :=
  <["addressbooks/pricipalUri" := RHash {["alice" := "null"]}]> ∅.

(** Address book 1 of alice with the cards c1 and c2, where the record names
    the owner also in the field that [deleteAddressBook] reads and the index
    of the address book lists c1. *)
Definition indexed_store : store :=
  (exec1 (ZADD "addressbooks/1/cards" 1000 "c1") two_cards_patched).2.

(** The card at a uri as the reading methods answer it with the reference
    translation of replies: a field that is not stored is the empty
    string. *)
Definition stored_card (self : backend) (s : store) (addressBookId : Z)
    (cardUri : string) : card :=
  let key := cardKey self (Number_toString addressBookId) cardUri in
  {| card_uri := JString cardUri;
     carddata := JString (default EmptyString (hget s key "carddata"));
     lastmodified := JString (default EmptyString (hget s key "lastmodified")) |}.

(** The keys that a request may change on the server [s]. *)
Definition may_write (self : backend) (s : store) (r : request) (k : string)
  : Prop :=
  match r with
  | GetAddressBooksForUser _ | GetCards _ | GetCard _ _ => False
  | UpdateAddressBook a _ => k = addressBookKey self (Number_toString a)
  | CreateAddressBook _ _ _ =>
      k = idKey self \/ k = principalsKey self \/
      exists c, idCounter self s = Some c /\
                k = addressBookKey self (Number_toString (c + 1))
  | DeleteAddressBook a =>
      k = addressBookKey self (Number_toString a) \/
      k = cardsIndexKey self (Number_toString a) \/
      k = principalsKey self \/
      exists cardUri, k = cardKey self (Number_toString a) cardUri
  | CreateCard a cardUri _ _ | DeleteCard a cardUri =>
      k = cardKey self (Number_toString a) cardUri \/
      k = sharedIndexKey self \/
      k = addressBookKey self (Number_toString a)
  | UpdateCard a cardUri _ _ =>
      k = cardKey self (Number_toString a) cardUri \/
      k = addressBookKey self (Number_toString a)
  end.

(** The row of [getAddressBooksForUser] for an identifier of the id set, with
    the reference translation of replies: the four fields that [HMGET] asks
    for, read at the positions that the method takes them from. *)
Definition listed_row (self : backend) (s : store) (id : jsval) : addressbook :=
  let field f :=
    JString (default EmptyString (hget s (addressBookKey self (js_toString id)) f)) in
  {| ab_id := id;
     ab_uri := field "uri";
     ab_principaluri := field "principaluri";
     ab_displayname := field "description";
     ab_getctag := JUndefined;
     ab_description := field "ctag" |}.

(** * Properties *)

(** Closed statements about a concrete server are settled by running the
    model. *)
Ltac evaluate := repeat split; vm_compute; reflexivity.

Arguments parseInt : simpl never.
Arguments Number_toString : simpl never.

(** ** Decimal notation *)

Lemma digit_not_sign c :
  is_digit c = true ->
  is_space c = false /\ Ascii.eqb c "-" = false /\ Ascii.eqb c "+" = false /\
  Ascii.eqb c "/" = false /\ Ascii.eqb c "," = false.
Proof.
  destruct c as [[] [] [] [] [] [] [] []]; vm_compute; intros Hd;
    try discriminate Hd; repeat split.
Qed.

Lemma uint_digits d :
  take_digits (NilEmpty.string_of_uint d) = NilEmpty.string_of_uint d.
Proof. induction d; simpl; congruence. Qed.

Lemma uint_head d :
  d <> Decimal.Nil ->
  exists c r, NilEmpty.string_of_uint d = String c r /\ is_digit c = true.
Proof. destruct d; intros Hd; try congruence; simpl; eauto. Qed.

Lemma parseInt_digits c r :
  is_digit c = true -> take_digits (String c r) = String c r ->
  parseInt (String c r) = Num (digits_value (String c r)).
Proof.
  intros Hc Ht. destruct (digit_not_sign c Hc) as (Hs & Hm & Hp & _).
  unfold parseInt. cbn [skip_spaces]. rewrite Hs, Hm, Hp, Ht. reflexivity.
Qed.

Lemma parseInt_minus_digits c r :
  is_digit c = true -> take_digits (String c r) = String c r ->
  parseInt (String "-" (String c r)) = Num (- digits_value (String c r)).
Proof.
  intros Hc Ht. unfold parseInt. cbn [skip_spaces].
  replace (is_space "-") with false by reflexivity.
  replace (Ascii.eqb "-" "-") with true by reflexivity.
  rewrite Ht. reflexivity.
Qed.

Lemma digits_value_uint d :
  digits_value (NilEmpty.string_of_uint d) = Z.of_uint d.
Proof. unfold digits_value. now rewrite NilEmpty.usu. Qed.

Lemma Number_toString_pos p :
  Number_toString (Z.pos p) = NilEmpty.string_of_uint (Pos.to_uint p).
Proof.
  unfold Number_toString. simpl.
  generalize (Unsigned.to_uint_nonnil p). now destruct (Pos.to_uint p).
Qed.

Lemma Number_toString_neg p :
  Number_toString (Z.neg p) =
  String "-" (NilEmpty.string_of_uint (Pos.to_uint p)).
Proof.
  unfold Number_toString. simpl. f_equal.
  generalize (Unsigned.to_uint_nonnil p). now destruct (Pos.to_uint p).
Qed.

Lemma of_uint_to_uint p : Z.of_uint (Pos.to_uint p) = Z.pos p.
Proof. exact (DecimalZ.of_to (Z.pos p)). Qed.

(** What the backend writes for a number reads back as that number. *)
Lemma parseInt_Number_toString z : parseInt (Number_toString z) = Num z.
Proof.
  destruct z as [|p|p].
  - reflexivity.
  - rewrite Number_toString_pos.
    destruct (uint_head _ (Unsigned.to_uint_nonnil p)) as (c & r & Hs & Hc).
    pose proof (uint_digits (Pos.to_uint p)) as Ht.
    pose proof (digits_value_uint (Pos.to_uint p)) as Hv.
    rewrite Hs in *. rewrite parseInt_digits by assumption.
    now rewrite Hv, of_uint_to_uint.
  - rewrite Number_toString_neg.
    destruct (uint_head _ (Unsigned.to_uint_nonnil p)) as (c & r & Hs & Hc).
    pose proof (uint_digits (Pos.to_uint p)) as Ht.
    pose proof (digits_value_uint (Pos.to_uint p)) as Hv.
    rewrite Hs in *. rewrite parseInt_minus_digits by assumption.
    now rewrite Hv, of_uint_to_uint.
Qed.

Lemma Number_toString_inj a b : Number_toString a = Number_toString b -> a = b.
Proof.
  intros Hab. pose proof (parseInt_Number_toString a) as Ha.
  rewrite Hab, parseInt_Number_toString in Ha. congruence.
Qed.

(** ** Slashes in keys *)

Lemma occurrences_app c a b :
  occurrences c (a ++ b) = occurrences c a + occurrences c b.
Proof. induction a as [|x a IH]; simpl; [reflexivity|]. rewrite IH. lia. Qed.

Lemma uint_no_slash d : occurrences "/" (NilEmpty.string_of_uint d) = 0.
Proof. induction d; simpl; auto. Qed.

Lemma Number_toString_no_slash z : occurrences "/" (Number_toString z) = 0.
Proof.
  destruct z as [|p|p].
  - reflexivity.
  - rewrite Number_toString_pos. apply uint_no_slash.
  - rewrite Number_toString_neg. simpl. apply uint_no_slash.
Qed.

(** ** The store *)

Lemma exec1_other c s k :
  command_key c <> k -> (exec1 c s).2 !! k = s !! k.
Proof.
  intros Hk. destruct c; simpl in *;
    repeat (case_match; simpl; simplify_map_eq; try done).
Qed.

Lemma exec1_read_only c s : read_only c = true -> (exec1 c s).2 = s.
Proof. destruct c; simpl; try discriminate; intros _; repeat case_match; done. Qed.

Lemma exec_all_app cs1 cs2 s :
  exec_all (cs1 ++ cs2)%list s =
  (((exec_all cs1 s).1 ++ (exec_all cs2 (exec_all cs1 s).2).1)%list,
   (exec_all cs2 (exec_all cs1 s).2).2).
Proof.
  revert s. induction cs1 as [|c cs1 IH]; intros s; simpl.
  - by destruct (exec_all cs2 s).
  - destruct (exec1 c s) as [r s1]. rewrite IH.
    destruct (exec_all cs1 s1) as [rs s2]. simpl.
    by destruct (exec_all cs2 s2).
Qed.

Lemma exec_all_cons c cs s :
  (exec_all (c :: cs) s).2 = (exec_all cs (exec1 c s).2).2.
Proof.
  simpl. destruct (exec1 c s) as [r s1]. simpl. by destruct (exec_all cs s1).
Qed.

Lemma exec_all_snoc cs c s :
  (exec_all (cs ++ [c])%list s).2 = (exec1 c (exec_all cs s).2).2.
Proof. rewrite exec_all_app. cbn [snd]. by rewrite exec_all_cons. Qed.

Lemma exec_all_read_only cs s :
  forallb read_only cs = true -> (exec_all cs s).2 = s.
Proof.
  revert s. induction cs as [|c cs IH]; intros s Hro; [done|].
  simpl in Hro. apply andb_true_iff in Hro as [Hc Hcs].
  rewrite exec_all_cons, exec1_read_only by done. by apply IH.
Qed.

Lemma exec_all_other cs s k :
  Forall (fun c => command_key c <> k) cs -> (exec_all cs s).2 !! k = s !! k.
Proof.
  revert s. induction cs as [|c cs IH]; intros s Hk; [done|].
  inversion Hk; subst. rewrite exec_all_cons, IH by done. by apply exec1_other.
Qed.

Lemma hget_HSET s k f v :
  hash_or_free s k -> hget (exec1 (HSET k f v) s).2 k f = Some v.
Proof.
  unfold hash_or_free, hget. simpl. intros Hk.
  repeat (case_match; simpl in *; simplify_map_eq; try done).
Qed.

Lemma is_hash_exec1 c s k : is_hash s k -> read_only c = false ->
  (forall k', c <> DEL k') -> (forall k', c <> INCR k') -> is_hash (exec1 c s).2 k.
Proof.
  intros [h Hk] _ Hdel Hincr. unfold is_hash.
  destruct c; simpl; try (by eexists);
    try (by exfalso; eapply Hdel); try (by exfalso; eapply Hincr);
    destruct (decide (key = k)) as [->|Hne];
    repeat (case_match; simpl in *; simplify_map_eq; try by eexists).
Qed.

Lemma hash_or_free_DEL s k k' : hash_or_free s k -> hash_or_free (exec1 (DEL k') s).2 k.
Proof.
  unfold hash_or_free. simpl. intros Hk. destruct (decide (k' = k)) as [->|Hne];
    repeat (case_match; simpl in *; simplify_map_eq; try done).
Qed.

Lemma hash_or_free_ZREM s k k' m :
  hash_or_free s k -> hash_or_free (exec1 (ZREM k' m) s).2 k.
Proof.
  unfold hash_or_free. simpl. intros Hk. destruct (decide (k' = k)) as [->|Hne];
    repeat (case_match; simpl in *; simplify_map_eq; try done).
Qed.

Lemma is_hash_hash_or_free s k : is_hash s k -> hash_or_free s k.
Proof. intros [h Hk]. unfold hash_or_free. by rewrite Hk. Qed.

Section Ctag.
Context `{Runtime} `{Imports}.
Variable self : backend.

Lemma ctagOf_is_hash s A n :
  ctagOf self s A = Some n -> is_hash s (addressBookKey self (Number_toString A)).
Proof.
  unfold ctagOf, hget, is_hash. intros Hc.
  destruct (s !! _) as [[]|]; try done. by eexists.
Qed.

Lemma bumpCtag_run s id v commands :
  hget s (addressBookKey self id) "ctag" = Some v ->
  bumpCtag self id commands s =
  multi_exec (commands ++
              [HSET (addressBookKey self id) "ctag"
                    (jsnum_toString (jsnum_incr (parseInt v)))])%list s.
Proof.
  unfold hget, bumpCtag, bind, send. simpl. intros Hv.
  destruct (s !! addressBookKey self id) as [[]|]; try done.
  by rewrite Hv.
Qed.

Lemma multi_exec_snd cs s : (multi_exec cs s).2 = (exec_all cs s).2.
Proof. unfold multi_exec. by destruct (exec_all cs s). Qed.

Lemma multi_exec_fst cs s : exists rs, (multi_exec cs s).1 = Ret rs.
Proof. unfold multi_exec. destruct (exec_all cs s). by eexists. Qed.

Lemma bind_ret_const {A B} (m : M A) (b : B) s a :
  (m s).1 = Ret a -> (do _ <- m; ret b) s = (Ret b, (m s).2).
Proof. unfold bind, ret. destruct (m s) as [o s']. simpl. by intros ->. Qed.

Lemma ctagOf_after_bump s id commands :
  hash_or_free (exec_all commands s).2 (addressBookKey self id) ->
  forall v,
  hget (exec_all (commands ++ [HSET (addressBookKey self id) "ctag" v])%list s).2
       (addressBookKey self id) "ctag" = Some v.
Proof.
  intros Hk v. rewrite exec_all_snoc. by apply hget_HSET.
Qed.

Lemma bumpCtag_ctag s A n commands :
  ctagOf self s A = Some (Num n) ->
  hash_or_free (exec_all commands s).2 (addressBookKey self (Number_toString A)) ->
  (exists rs, (bumpCtag self (Number_toString A) commands s).1 = Ret rs) /\
  ctagOf self (bumpCtag self (Number_toString A) commands s).2 A = Some (Num (n + 1)).
Proof.
  intros Hc Hk. unfold ctagOf in Hc.
  destruct (hget s _ "ctag") as [v|] eqn:Hv; [|done].
  simpl in Hc. injection Hc as Hn.
  rewrite (bumpCtag_run _ _ v) by done. split; [apply multi_exec_fst|].
  rewrite multi_exec_snd. unfold ctagOf. rewrite ctagOf_after_bump by done.
  rewrite Hn. simpl. by rewrite parseInt_Number_toString.
Qed.

Lemma createCard_ctag s A n cardUri cardData now :
  ctagOf self s A = Some (Num n) ->
  (createCard self A cardUri cardData now s).1 = Ret (etag cardData) /\
  ctagOf self (createCard self A cardUri cardData now s).2 A = Some (Num (n + 1)).
Proof.
  intros Hc. unfold createCard.
  set (cs := [HMSET _ _; ZADD _ _ _]).
  destruct (bumpCtag_ctag s A n cs Hc) as [[rs Hrs] Hn].
  { apply is_hash_hash_or_free. subst cs. rewrite !exec_all_cons. cbn [exec_all snd].
    do 2 (apply is_hash_exec1; [|done|done|done]). by eapply ctagOf_is_hash. }
  by rewrite (bind_ret_const _ _ _ rs).
Qed.

Lemma updateCard_ctag s A n cardUri cardData now :
  ctagOf self s A = Some (Num n) ->
  (updateCard self A cardUri cardData now s).1 = Ret (etag cardData) /\
  ctagOf self (updateCard self A cardUri cardData now s).2 A = Some (Num (n + 1)).
Proof.
  intros Hc. unfold updateCard.
  set (cs := [HMSET _ _]).
  destruct (bumpCtag_ctag s A n cs Hc) as [[rs Hrs] Hn].
  { apply is_hash_hash_or_free. subst cs. rewrite !exec_all_cons. cbn [exec_all snd].
    apply is_hash_exec1; [|done|done|done]. by eapply ctagOf_is_hash. }
  by rewrite (bind_ret_const _ _ _ rs).
Qed.

Lemma deleteCard_ctag s A n cardUri :
  ctagOf self s A = Some (Num n) ->
  (deleteCard self A cardUri s).1 = Ret true /\
  ctagOf self (deleteCard self A cardUri s).2 A = Some (Num (n + 1)).
Proof.
  intros Hc. unfold deleteCard.
  set (cs := [DEL _; ZREM _ _]).
  destruct (bumpCtag_ctag s A n cs Hc) as [[rs Hrs] Hn].
  { subst cs. rewrite !exec_all_cons. cbn [exec_all snd].
    apply hash_or_free_ZREM, hash_or_free_DEL, is_hash_hash_or_free.
    by eapply ctagOf_is_hash. }
  by rewrite (bind_ret_const _ _ _ rs).
Qed.
End Ctag.

(** ** Commands that keep the ctag of a record *)

Lemma ctag_at_least_other k n s s' :
  s' !! k = s !! k -> ctag_at_least k n s -> ctag_at_least k n s'.
Proof. unfold ctag_at_least. by intros ->. Qed.

Lemma keeps_other k n c : command_key c <> k -> keeps k n c.
Proof. intros Hk s. apply ctag_at_least_other. by apply exec1_other. Qed.

Lemma keeps_read_only k n c : read_only c = true -> keeps k n c.
Proof. intros Hc s. by rewrite exec1_read_only. Qed.

Lemma keeps_DEL k n k' : keeps k n (DEL k').
Proof.
  intros s. unfold ctag_at_least. simpl.
  destruct (decide (k' = k)) as [->|Hne];
    repeat (case_match; simpl in *; simplify_map_eq; try done).
Qed.

Lemma keeps_INCR k n k' : keeps k n (INCR k').
Proof.
  intros s. unfold ctag_at_least. simpl.
  destruct (decide (k' = k)) as [->|Hne];
    repeat (case_match; simpl in *; simplify_map_eq; try done).
Qed.

Lemma keeps_ZADD k n k' sc m : keeps k n (ZADD k' sc m).
Proof.
  intros s. unfold ctag_at_least. simpl.
  destruct (decide (k' = k)) as [->|Hne];
    repeat (case_match; simpl in *; simplify_map_eq; try done).
Qed.

Lemma keeps_ZREM k n k' m : keeps k n (ZREM k' m).
Proof.
  intros s. unfold ctag_at_least. simpl.
  destruct (decide (k' = k)) as [->|Hne];
    repeat (case_match; simpl in *; simplify_map_eq; try done).
Qed.

Lemma keeps_HSET_ctag k n m : (n <= m)%Z -> keeps k n (HSET k "ctag" (Number_toString m)).
Proof.
  intros Hm s. unfold ctag_at_least. simpl.
  repeat (case_match; simpl in *; simplify_map_eq; try done);
    exists m; by rewrite parseInt_Number_toString.
Qed.

Lemma hash_set_all_other pairs h f :
  Forall (fun p => p.1 <> f) pairs -> hash_set_all pairs h !! f = h !! f.
Proof.
  unfold hash_set_all. revert h.
  induction pairs as [|[f' v] pairs IH]; intros h Hf; simpl; [done|].
  inversion Hf; subst. simpl in *. rewrite IH by done. by rewrite lookup_insert_ne.
Qed.

Lemma keeps_HMSET_ctag k n m pairs :
  (n <= m)%Z -> Forall (fun p => p.1 <> "ctag") pairs ->
  keeps k n (HMSET k (("ctag", Number_toString m) :: pairs)).
Proof.
  intros Hm Hp s. unfold ctag_at_least. simpl.
  repeat (case_match; simpl in *; simplify_map_eq; try done);
    exists m; unfold hash_set_all; simpl;
    change (fold_left _ pairs ?h) with (hash_set_all pairs h);
    rewrite hash_set_all_other, lookup_insert_eq by done; simpl;
    by rewrite parseInt_Number_toString.
Qed.

Lemma exec_all_keeps k n cs s :
  Forall (keeps k n) cs -> ctag_at_least k n s -> ctag_at_least k n (exec_all cs s).2.
Proof.
  revert s. induction cs as [|c cs IH]; intros s Hcs Hs; [done|].
  inversion Hcs; subst. rewrite exec_all_cons. apply IH; [done|]. by apply H1.
Qed.

(** ** Running the monad *)

Lemma bind_snd {A B} (m : M A) (k : A -> M B) s (I : store -> Prop) :
  I (m s).2 -> (forall a, (m s).1 = Ret a -> I (k a (m s).2).2) -> I (bind m k s).2.
Proof. unfold bind. destruct (m s) as [[a|e|e|] s']; simpl; auto. Qed.

Lemma bind_ret_snd {A B} (m : M A) (b : B) s :
  (bind m (fun _ => ret b) s).2 = (m s).2.
Proof. unfold bind, ret. by destruct (m s) as [[]]. Qed.

Lemma send_snd c s : (send c s).2 = (exec1 c s).2.
Proof. unfold send. destruct (exec1 c s) as [[] s']; done. Qed.

Lemma send_fst c s r : (send c s).1 = Ret r -> r = (exec1 c s).1.
Proof. unfold send. destruct (exec1 c s) as [[] s']; simpl; congruence. Qed.

Lemma send_HGET_string k f s r v :
  (send (HGET k f) s).1 = Ret r -> reply_string r = Some v -> hget s k f = Some v.
Proof.
  intros Hr%send_fst Hv. subst r. unfold hget. simpl in Hv.
  destruct (s !! k) as [[]|]; simpl in Hv; try done.
  destruct (h !! f); simpl in Hv; congruence.
Qed.

Lemma forallb_map_const {A} (f : A -> command) (l : list A) :
  (forall x, read_only (f x) = true) -> forallb read_only (map f l) = true.
Proof. intros Hf. induction l; simpl; [done|]. by rewrite Hf. Qed.

(** ** Keys never collide with the record of an address book *)

Section Keys.
Variable self : backend.

Lemma addressBookKey_inj a b :
  addressBookKey self (Number_toString a) = addressBookKey self (Number_toString b) ->
  a = b.
Proof.
  unfold addressBookKey. intros Hk%String.app_inj.
  change ("/" ++ ?x) with (String "/" x) in Hk. injection Hk as Hk.
  by apply Number_toString_inj.
Qed.

Lemma addressBookKey_slashes a :
  occurrences "/" (addressBookKey self (Number_toString a)) =
  S (occurrences "/" (addressBooksTableName self)).
Proof.
  unfold addressBookKey. rewrite !occurrences_app, Number_toString_no_slash.
  simpl. lia.
Qed.

Lemma cardsIndexKey_ne b a :
  cardsIndexKey self (Number_toString b) <> addressBookKey self (Number_toString a).
Proof.
  intros Hk. apply (f_equal (occurrences "/")) in Hk.
  rewrite addressBookKey_slashes in Hk. unfold cardsIndexKey in Hk.
  rewrite !occurrences_app in Hk. simpl in Hk. lia.
Qed.

Lemma principalsKey_ne a :
  principalsKey self <> addressBookKey self (Number_toString a).
Proof.
  unfold principalsKey, addressBookKey. intros Hk%String.app_inj. simpl in Hk.
  change ("/" ++ ?x) with (String "/" x) in Hk. injection Hk as Hk.
  pose proof (parseInt_Number_toString a) as Hp. by rewrite <- Hk in Hp.
Qed.

Lemma idKey_ne a : idKey self <> addressBookKey self (Number_toString a).
Proof.
  unfold idKey, addressBookKey. intros Hk%String.app_inj. simpl in Hk.
  change ("/" ++ ?x) with (String "/" x) in Hk. injection Hk as Hk.
  pose proof (parseInt_Number_toString a) as Hp. by rewrite <- Hk in Hp.
Qed.

Hypothesis no_slash : occurrences "/" (addressBooksTableName self) = 0.

Lemma cardKey_ne b cardUri a :
  cardKey self (Number_toString b) cardUri <> addressBookKey self (Number_toString a).
Proof.
  intros Hk. apply (f_equal (occurrences "/")) in Hk.
  rewrite addressBookKey_slashes, no_slash in Hk. unfold cardKey in Hk.
  rewrite !occurrences_app in Hk. simpl in Hk. lia.
Qed.
End Keys.

(** ** No request lowers the ctag of an address book *)

Section Monotone.
Context `{Runtime} `{Imports}.
Variable self : backend.
Variable A : Z.
Variable n : Z.

Let k := addressBookKey self (Number_toString A).
Let I := ctag_at_least k n.

Lemma getAddressBooksForUser_pure p s : (getAddressBooksForUser self p s).2 = s.
Proof.
  unfold getAddressBooksForUser.
  apply (bind_snd _ _ _ (fun s' => s' = s)).
  { rewrite send_snd. by apply exec1_read_only. }
  intros res _. rewrite send_snd, exec1_read_only by done.
  destruct (parse_ids res) as [e|[| | | | |ids|]]; try done.
  apply (bind_snd _ _ _ (fun s' => s' = s)).
  { rewrite multi_exec_snd. apply exec_all_read_only. by apply forallb_map_const. }
  intros rows _. rewrite multi_exec_snd, exec_all_read_only
    by by apply forallb_map_const.
  destruct (fromMultiBulk rows); try done. by destruct (map_idx _ _ _).
Qed.

Lemma getCards_pure a s : (getCards self a s).2 = s.
Proof.
  unfold getCards.
  apply (bind_snd _ _ _ (fun s' => s' = s)).
  { rewrite send_snd. by apply exec1_read_only. }
  intros res _. rewrite send_snd, exec1_read_only by done.
  destruct (fromMultiBulk res); try done.
  apply (bind_snd _ _ _ (fun s' => s' = s)).
  { rewrite multi_exec_snd. apply exec_all_read_only. by apply forallb_map_const. }
  intros rows _. rewrite multi_exec_snd, exec_all_read_only
    by by apply forallb_map_const.
  destruct (fromMultiBulk rows); try done. by destruct (map_idx _ _ _).
Qed.

Lemma getCard_pure a u s : (getCard self a u s).2 = s.
Proof.
  unfold getCard.
  apply (bind_snd _ _ _ (fun s' => s' = s)).
  { rewrite send_snd. by apply exec1_read_only. }
  intros res _. rewrite send_snd, exec1_read_only by done.
  repeat case_match; done.
Qed.

Lemma bumpCtag_keeps b commands s :
  Forall (keeps k n) commands -> I s ->
  I (bumpCtag self (Number_toString b) commands s).2.
Proof.
  intros Hcs Hs. unfold bumpCtag.
  apply (bind_snd _ _ _ I).
  { by rewrite send_snd, exec1_read_only. }
  intros r Hr. rewrite send_snd, exec1_read_only by done.
  destruct (reply_string r) as [v|] eqn:Hv; [|done].
  rewrite multi_exec_snd. apply exec_all_keeps; [|done].
  apply Forall_app. split; [done|]. apply Forall_cons. split; [|done].
  destruct (decide (b = A)) as [->|Hne].
  - pose proof (send_HGET_string _ _ _ _ _ Hr Hv) as Hg.
    fold k in Hg |- *. unfold hget in Hg.
    unfold I, ctag_at_least in Hs.
    destruct (s !! k) as [[| h |]|]; try done.
    destruct Hs as (n' & Hn' & Hle). rewrite Hg in Hn'. simpl in Hn'.
    injection Hn' as ->. simpl. apply keeps_HSET_ctag. lia.
  - apply keeps_other. simpl. by intros Hk%addressBookKey_inj.
Qed.

Lemma collectUpdates_fields mutations updates updates' :
  collectUpdates mutations updates = Some updates' ->
  Forall (fun p => p.1 <> "ctag") updates ->
  Forall (fun p => p.1 <> "ctag") updates'.
Proof.
  revert updates. induction mutations as [|[p v] ms IH]; intros updates; simpl.
  - by intros [= ->].
  - assert (Hset : forall f, f <> "ctag" ->
              Forall (fun p : string * jsval => p.1 <> "ctag") updates ->
              Forall (fun p : string * jsval => p.1 <> "ctag") (obj_set f v updates)).
    { intros f Hf. clear - Hf. induction updates as [|[f' v'] us IHu]; simpl.
      - intros _. by repeat constructor.
      - intros Hus. inversion Hus; subst. destruct (String.eqb f' f).
        + by constructor.
        + constructor; [done|]. by apply IHu. }
    repeat case_match; try done; intros Hc Hu; eapply IH; try done;
      by apply Hset.
Qed.

Lemma hmset_args_fields updates :
  Forall (fun p : string * jsval => p.1 <> "ctag") updates ->
  Forall (fun p : string * string => p.1 <> "ctag") (hmset_args updates).
Proof.
  unfold hmset_args. induction 1; simpl; by constructor.
Qed.

Lemma updateAddressBook_keeps b mutations s :
  I s -> I (updateAddressBook self b mutations s).2.
Proof.
  intros Hs. unfold updateAddressBook.
  destruct (collectUpdates mutations []) as [updates|] eqn:Hu; [|done].
  destruct (_ =? _)%nat; [done|].
  apply (bind_snd _ _ _ I).
  { by rewrite send_snd, exec1_read_only. }
  intros r Hr. rewrite send_snd, exec1_read_only by done.
  destruct (reply_string r) as [v|] eqn:Hv; [|done].
  cut (I (send (HMSET (addressBookKey self (Number_toString b))
                 (("ctag", jsnum_toString (jsnum_incr (parseInt v)))
                  :: hmset_args updates)) s).2).
  { intros Hi. by apply (bind_snd _ _ _ I). }
  rewrite send_snd.
  destruct (decide (b = A)) as [->|Hne].
  - pose proof (send_HGET_string _ _ _ _ _ Hr Hv) as Hg.
    fold k in Hg |- *. unfold hget in Hg.
    pose proof Hs as Hs'. unfold I, ctag_at_least in Hs'.
    destruct (s !! k) as [[| h |]|]; try done.
    destruct Hs' as (n' & Hn' & Hle). rewrite Hg in Hn'. simpl in Hn'.
    injection Hn' as ->. simpl jsnum_toString.
    apply keeps_HMSET_ctag; [lia| |done].
    apply hmset_args_fields. eapply collectUpdates_fields; [done|constructor].
  - apply keeps_other; [|done]. simpl. by intros Hk%addressBookKey_inj.
Qed.

Lemma INCR_reply key s r :
  (send (INCR key) s).1 = Ret r ->
  exists c, r = RInteger (c + 1) /\
    match s !! key with
    | None => c = 0%Z
    | Some (RString v) => redis_int v = Some c
    | Some _ => False
    end.
Proof.
  unfold send. simpl. destruct (s !! key) as [[v| |]|]; simpl; try done.
  - destruct (redis_int v) as [c|]; [|done].
    destruct (decide _); simpl; [|done]. intros [= <-]. by exists c.
  - intros [= <-]. by exists 0%Z.
Qed.

Lemma createAddressBook_keeps p url properties s :
  (forall c, idCounter self s = Some c -> (A <= c)%Z) ->
  I s -> I (createAddressBook self p url properties s).2.
Proof.
  intros Hfresh Hs. unfold createAddressBook.
  destruct (collectValues _ _) as [property|values]; [done|].
  apply (bind_snd _ _ _ I).
  { by rewrite send_snd, exec1_read_only. }
  intros res _. rewrite send_snd, exec1_read_only by done.
  apply (bind_snd _ _ _ I).
  { rewrite send_snd. by apply keeps_INCR. }
  intros r Hr. apply INCR_reply in Hr as (c & -> & Hc).
  assert (Hc' : idCounter self s = Some c).
  { unfold idCounter. destruct (s !! idKey self) as [[]|]; try done. by subst. }
  apply Hfresh in Hc'.
  assert (Hi : I (send (INCR (idKey self)) s).2).
  { rewrite send_snd. by apply keeps_INCR. }
  destruct (match parse_ids res with inl _ => _ | inr ids => ids end); try done.
  rewrite multi_exec_snd. simpl reply_integer. apply exec_all_keeps.
  - constructor; [|constructor; [|constructor]].
    + apply keeps_other. simpl. apply principalsKey_ne.
    + apply keeps_other. simpl. intros Hk%addressBookKey_inj. lia.
  - done.
Qed.

Lemma deleteAddressBook_keeps b s : I s -> I (deleteAddressBook self b s).2.
Proof.
  intros Hs. unfold deleteAddressBook.
  apply (bind_snd _ _ _ I).
  { by rewrite send_snd, exec1_read_only. }
  intros res _. rewrite send_snd, exec1_read_only by done.
  destruct (reply_string res) as [principalUri|]; [|done].
  apply (bind_snd _ _ _ I).
  { by rewrite send_snd, exec1_read_only. }
  intros res' _. rewrite send_snd, exec1_read_only by done.
  destruct (removeId _ _) as [e|ids]; [done|].
  apply (bind_snd _ _ _ I).
  { by rewrite send_snd, exec1_read_only. }
  intros res3 _. rewrite send_snd, exec1_read_only by done.
  destruct (fromMultiBulk res3) as [| | | | |cardUris|]; try done.
  rewrite multi_exec_snd. apply exec_all_keeps; [|done].
  apply Forall_app; split; [apply Forall_app; split|].
  - constructor; [apply keeps_DEL|]. constructor; [apply keeps_DEL|constructor].
  - constructor; [|constructor]. apply keeps_other. simpl. apply principalsKey_ne.
  - apply Forall_map, Forall_forall. intros u _. apply keeps_DEL.
Qed.

Lemma deleteCard_keeps b cardUri s : I s -> I (deleteCard self b cardUri s).2.
Proof.
  intros Hs. unfold deleteCard. rewrite bind_ret_snd.
  apply bumpCtag_keeps; [|done].
  constructor; [apply keeps_DEL|]. constructor; [apply keeps_ZREM|constructor].
Qed.

Hypothesis no_slash : occurrences "/" (addressBooksTableName self) = 0.

Lemma createCard_keeps b cardUri cardData now s :
  I s -> I (createCard self b cardUri cardData now s).2.
Proof.
  intros Hs. unfold createCard. rewrite bind_ret_snd.
  apply bumpCtag_keeps; [|done].
  constructor; [|constructor; [apply keeps_ZADD|constructor]].
  apply keeps_other. simpl. by apply cardKey_ne.
Qed.

Lemma updateCard_keeps b cardUri cardData now s :
  I s -> I (updateCard self b cardUri cardData now s).2.
Proof.
  intros Hs. unfold updateCard. rewrite bind_ret_snd.
  apply bumpCtag_keeps; [|done].
  constructor; [|constructor].
  apply keeps_other. simpl. by apply cardKey_ne.
Qed.

Lemma perform_keeps r s :
  (forall c, idCounter self s = Some c -> (A <= c)%Z) ->
  I s -> I (perform self r s).
Proof.
  intros Hfresh Hs. destruct r; simpl.
  - by rewrite getAddressBooksForUser_pure.
  - by apply updateAddressBook_keeps.
  - by apply createAddressBook_keeps.
  - by apply deleteAddressBook_keeps.
  - by rewrite getCards_pure.
  - by rewrite getCard_pure.
  - by apply createCard_keeps.
  - by apply updateCard_keeps.
  - by apply deleteCard_keeps.
Qed.
End Monotone.

Lemma ctagOf_at_least `{Runtime} `{Imports} self s A n :
  ctagOf self s A = Some (Num n) ->
  ctag_at_least (addressBookKey self (Number_toString A)) n s.
Proof.
  unfold ctagOf, hget, ctag_at_least.
  destruct (s !! _) as [[]|]; try done. intros Hc. exists n. split; [done|lia].
Qed.

(** ** The index that [getCards] reads has a key of its own *)

Lemma sharedIndexKey_ne_cardsIndexKey self id :
  sharedIndexKey self <> cardsIndexKey self id.
Proof.
  unfold sharedIndexKey, cardsIndexKey. intros Hk.
  apply (f_equal (occurrences "/")) in Hk.
  rewrite !occurrences_app in Hk. simpl in Hk. lia.
Qed.

Lemma addressBookKey_ne_cardsIndexKey self id :
  addressBookKey self id <> cardsIndexKey self id.
Proof.
  unfold addressBookKey, cardsIndexKey. intros Hk.
  apply (f_equal (occurrences "/")) in Hk.
  rewrite !occurrences_app in Hk. simpl in Hk. lia.
Qed.

(** ** Recognised property names *)

Lemma collectValues_unknown `{Imports} properties values :
  Exists (fun p => recognized p.1 = false) properties ->
  exists property, collectValues properties values = inl property /\
                   recognized property = false.
Proof.
  intros Hex. revert values.
  induction Hex as [[p v] ps Hp|[p v] ps Hex IH]; intros values; simpl in *.
  - pose proof Hp as Hp'. unfold recognized in Hp'.
    apply orb_false_iff in Hp' as [-> ->]. by exists p.
  - destruct (String.eqb p displaynameProp) eqn:Hd; [apply IH|].
    destruct (String.eqb p descriptionProp) eqn:He; [apply IH|].
    exists p. unfold recognized. by rewrite Hd, He.
Qed.

(** ** What [HSET] and [HMSET] leave alone *)

Lemma same_non_hashes_refl s : same_non_hashes s s.
Proof. by intros k v _. Qed.

Lemma same_non_hashes_trans s1 s2 s3 :
  same_non_hashes s1 s2 -> same_non_hashes s2 s3 -> same_non_hashes s1 s3.
Proof. intros H12 H23 k v Hv. by rewrite (H23 k v Hv), (H12 k v Hv). Qed.

Lemma same_non_hashes_HMSET s k pairs :
  same_non_hashes s (exec1 (HMSET k pairs) s).2.
Proof.
  intros k' v Hv. simpl. destruct (decide (k' = k)) as [->|Hne];
    repeat (case_match; simpl in *; simplify_map_eq; try done);
    split; intros; simplify_eq; done.
Qed.

Lemma same_non_hashes_HSET s k f x :
  same_non_hashes s (exec1 (HSET k f x) s).2.
Proof.
  intros k' v Hv. simpl. destruct (decide (k' = k)) as [->|Hne];
    repeat (case_match; simpl in *; simplify_map_eq; try done);
    split; intros; simplify_eq; done.
Qed.

Lemma hget_HSET_other s k f0 x k' f :
  ~ (k' = k /\ f = f0) -> hget (exec1 (HSET k f0 x) s).2 k' f = hget s k' f.
Proof.
  intros Hne. unfold hget. simpl. destruct (decide (k' = k)) as [->|Hk].
  - assert (f0 <> f) by (intros ->; by apply Hne).
    repeat (case_match; simpl in *; simplify_map_eq; try done).
  - repeat (case_match; simpl in *; simplify_map_eq; try done).
Qed.

Lemma hget_HMSET_other s k pairs k' f :
  ~ (k' = k /\ Exists (fun p => p.1 = f) pairs) ->
  hget (exec1 (HMSET k pairs) s).2 k' f = hget s k' f.
Proof.
  intros Hne. unfold hget. simpl. destruct (decide (k' = k)) as [->|Hk].
  - assert (Hf : Forall (fun p : string * string => p.1 <> f) pairs).
    { apply Forall_forall. intros p Hp Hpf. apply Hne. split; [done|].
      apply Exists_exists. by exists p. }
    repeat (case_match; simpl in *; simplify_map_eq; try done);
      by rewrite hash_set_all_other.
  - repeat (case_match; simpl in *; simplify_map_eq; try done).
Qed.

(** ** The properties that [updateAddressBook] writes *)

Lemma obj_get_set k v o f :
  obj_get f (obj_set k v o) = if decide (f = k) then Some v else obj_get f o.
Proof.
  induction o as [|[k' v'] o IH]; simpl.
  - destruct (String.eqb_spec k f); case_decide; congruence.
  - destruct (String.eqb_spec k' k) as [->|Hk]; simpl.
    + destruct (String.eqb_spec k f); case_decide; congruence.
    + rewrite IH. destruct (String.eqb_spec k' f); case_decide; congruence.
Qed.

Lemma obj_set_keys k v o :
  NoDup o.*1 -> NoDup (obj_set k v o).*1 /\
  forall k', k' ∈ (obj_set k v o).*1 <-> k' = k \/ k' ∈ o.*1.
Proof.
  induction o as [|[k0 v0] o IH]; simpl; intros Hnd.
  - split; [apply NoDup_singleton|]. intros k'.
    rewrite list_elem_of_singleton, elem_of_nil. tauto.
  - apply NoDup_cons in Hnd as [Hk0 Hnd]. destruct (IH Hnd) as [IH1 IH2].
    destruct (String.eqb_spec k0 k) as [->|Hk]; simpl.
    + split; [by apply NoDup_cons|]. intros k'. rewrite !elem_of_cons. tauto.
    + split.
      * apply NoDup_cons. split; [|done]. rewrite IH2. tauto.
      * intros k'. rewrite !elem_of_cons, IH2. tauto.
Qed.

Lemma obj_get_None f o : f ∉ o.*1 -> obj_get f o = None.
Proof.
  induction o as [|[k v] o IH]; simpl; [done|]. intros Hf.
  apply not_elem_of_cons in Hf as [Hk Hf].
  destruct (String.eqb_spec k f); [congruence|by apply IH].
Qed.

Lemma hash_set_all_get o h f :
  NoDup o.*1 ->
  hash_set_all (hmset_args o) h !! f =
  match obj_get f o with
  | Some v => Some (js_toString v)
  | None => h !! f
  end.
Proof.
  unfold hash_set_all, hmset_args. revert h.
  induction o as [|[k v] o IH]; intros h Hnd; simpl; [done|].
  apply NoDup_cons in Hnd as [Hk Hnd]. rewrite IH by done.
  destruct (String.eqb_spec k f) as [->|Hkf].
  - by rewrite obj_get_None, lookup_insert_eq.
  - destruct (obj_get f o); [done|]. by rewrite lookup_insert_ne.
Qed.

Section Updates.
Context `{Imports}.

Lemma field_of_recognized p : recognized p = true <-> is_Some (field_of p).
Proof.
  unfold recognized, field_of.
  destruct (String.eqb p displaynameProp), (String.eqb p descriptionProp);
    simpl; split; intros Hp; try done; by destruct Hp.
Qed.

Lemma collectUpdates_unknown mutations updates :
  Exists (fun p => recognized p.1 = false) mutations ->
  collectUpdates mutations updates = None.
Proof.
  intros Hex. revert updates.
  induction Hex as [[p v] ps Hp|[p v] ps Hex IH]; intros updates; simpl in *.
  - unfold recognized in Hp. by apply orb_false_iff in Hp as [-> ->].
  - by repeat case_match.
Qed.

Lemma collectUpdates_known mutations updates :
  Forall (fun p => recognized p.1 = true) mutations ->
  NoDup updates.*1 ->
  exists updates',
    collectUpdates mutations updates = Some updates' /\
    NoDup updates'.*1 /\
    (forall f, f ∈ updates'.*1 <->
               f ∈ updates.*1 \/ Exists (fun p => field_of p.1 = Some f) mutations) /\
    (forall f, obj_get f updates' =
               match new_value f mutations with
               | Some v => Some v
               | None => obj_get f updates
               end).
Proof.
  intros Hall. revert updates.
  induction Hall as [|[p v] ps Hp Hall IH]; intros updates Hnd; simpl.
  { exists updates. repeat split; try done.
    - by left.
    - intros [?|Hex]; [done|]. by apply Exists_nil in Hex. }
  assert (Hstep : forall field, field_of p = Some field ->
    exists updates',
      collectUpdates ps (obj_set field v updates) = Some updates' /\
      NoDup updates'.*1 /\
      (forall f, f ∈ updates'.*1 <->
         f ∈ updates.*1 \/
         Exists (fun q : string * jsval => field_of q.1 = Some f) ((p, v) :: ps)) /\
      (forall f, obj_get f updates' =
         match
           match new_value f ps with
           | Some v' => Some v'
           | None => if decide (field_of p = Some f) then Some v else None
           end
         with
         | Some v0 => Some v0
         | None => obj_get f updates
         end)).
  { intros field Hfield.
    destruct (obj_set_keys field v updates Hnd) as [Hnd' Hkeys].
    destruct (IH _ Hnd') as (updates' & Hc & Hn & Hk & Hg).
    exists updates'. repeat split; try done.
    - rewrite Hk, Hkeys, Exists_cons. simpl. rewrite Hfield.
      intros [[->|?]|?]; auto.
    - rewrite Hk, Hkeys, Exists_cons. simpl. rewrite Hfield.
      intros [?|[[= ->]|?]]; auto.
    - intros f. rewrite Hg, obj_get_set, Hfield.
      destruct (new_value f ps); [done|].
      repeat case_decide; simplify_eq; done. }
  destruct (String.eqb p displaynameProp) eqn:Hd.
  { apply Hstep. unfold field_of. by rewrite Hd. }
  destruct (String.eqb p descriptionProp) eqn:He.
  { apply Hstep. unfold field_of. by rewrite Hd, He. }
  unfold recognized in Hp. simpl in Hp. by rewrite Hd, He in Hp.
Qed.
End Updates.

Lemma new_value_field `{Imports} f mutations :
  f <> "displayname" -> f <> "description" -> new_value f mutations = None.
Proof.
  intros Hd He. induction mutations as [|[p v] ms IH]; simpl; [done|].
  rewrite IH. case_decide as Hf; [|done]. unfold field_of in Hf.
  repeat case_match; congruence.
Qed.

(** ** Etags *)

Lemma string_length_app a b :
  String.length (a ++ b) = String.length a + String.length b.
Proof. induction a as [|c a IH]; simpl; [done|]. by rewrite IH. Qed.

Lemma string_app_inv_tail a b z : a ++ z = b ++ z -> a = b.
Proof.
  revert b. induction a as [|c a IH]; intros [|d b] Hab.
  - done.
  - apply (f_equal String.length) in Hab.
    rewrite !string_length_app in Hab. simpl in Hab. lia.
  - apply (f_equal String.length) in Hab.
    rewrite !string_length_app in Hab. simpl in Hab. lia.
  - change (String c (a ++ z) = String d (b ++ z)) in Hab.
    injection Hab as -> Hab. f_equal. by apply IH.
Qed.

Lemma etag_inj `{Imports} a b : etag a = etag b -> md5 a = md5 b.
Proof.
  unfold etag. intros Hab%String.app_inj. by apply string_app_inv_tail in Hab.
Qed.

Lemma hget_ZADD s k f x k' score member :
  hget s k f = Some x -> hget (exec1 (ZADD k' score member) s).2 k f = Some x.
Proof.
  unfold hget. simpl. intros Hx. destruct (decide (k' = k)) as [->|Hne];
    repeat (case_match; simpl in *; simplify_map_eq; try done).
Qed.

Lemma hget_HMSET_head s k f x pairs :
  hash_or_free s k -> Forall (fun p : string * string => p.1 <> f) pairs ->
  hget (exec1 (HMSET k ((f, x) :: pairs)) s).2 k f = Some x.
Proof.
  unfold hash_or_free, hget. simpl. intros Hk Hp.
  repeat (case_match; simpl in *; simplify_map_eq; try done);
    unfold hash_set_all; simpl;
    change (fold_left _ pairs ?h) with (hash_set_all pairs h);
    by rewrite hash_set_all_other, lookup_insert_eq.
Qed.

Lemma exec_all_ZADDs_hget cs s k f x :
  Forall (fun c => exists k sc m, c = ZADD k sc m) cs ->
  hget s k f = Some x -> hget (exec_all cs s).2 k f = Some x.
Proof.
  intros Hcs. revert s.
  induction Hcs as [|c cs (k' & sc & m & ->) _ IH]; intros s Hs; [done|].
  rewrite exec_all_cons. apply IH. by apply hget_ZADD.
Qed.

Lemma exec_all_ZADDs_is_hash cs s k :
  Forall (fun c => exists k sc m, c = ZADD k sc m) cs ->
  is_hash s k -> is_hash (exec_all cs s).2 k.
Proof.
  intros Hcs. revert s.
  induction Hcs as [|c cs (k' & sc & m & ->) _ IH]; intros s Hs; [done|].
  rewrite exec_all_cons. apply IH. by apply is_hash_exec1.
Qed.

Section Etag.
Context `{Imports}.
Variable self : backend.

Lemma bumpCtag_then {B} id commands (b : B) s v :
  hget s (addressBookKey self id) "ctag" = Some v ->
  (do _ <- bumpCtag self id commands; ret b) s =
  (Ret b,
   (exec_all (commands ++ [HSET (addressBookKey self id) "ctag"
                             (jsnum_toString (jsnum_incr (parseInt v)))])%list s).2).
Proof.
  intros Hv.
  destruct (multi_exec_fst
    (commands ++ [HSET (addressBookKey self id) "ctag"
                    (jsnum_toString (jsnum_incr (parseInt v)))])%list s) as [rs Hrs].
  rewrite (bind_ret_const _ _ _ rs) by (by rewrite (bumpCtag_run _ _ _ v)).
  by rewrite (bumpCtag_run _ _ _ v), multi_exec_snd.
Qed.

Lemma stored_after_write s A cardUri cardData now v middle :
  hget s (addressBookKey self (Number_toString A)) "ctag" = Some v ->
  hash_or_free s (cardKey self (Number_toString A) cardUri) ->
  Forall (fun c => exists k sc m, c = ZADD k sc m) middle ->
  let s' :=
    (exec_all ((HMSET (cardKey self (Number_toString A) cardUri)
                  [("carddata", cardData); ("lastmodified", Number_toString now)]
                :: middle) ++
               [HSET (addressBookKey self (Number_toString A)) "ctag"
                  (jsnum_toString (jsnum_incr (parseInt v)))])%list s).2 in
  hget s' (cardKey self (Number_toString A) cardUri) "carddata" = Some cardData /\
  is_Some (hget s' (addressBookKey self (Number_toString A)) "ctag").
Proof.
  intros Hv Hfree Hmid s'. subst s'. rewrite exec_all_snoc, exec_all_cons. split.
  - rewrite hget_HSET_other; [|by intros [_ ?]].
    apply exec_all_ZADDs_hget; [done|].
    apply hget_HMSET_head; [done|]. by repeat constructor.
  - rewrite hget_HSET; [done|]. apply is_hash_hash_or_free.
    apply exec_all_ZADDs_is_hash; [done|].
    apply is_hash_exec1; try done. unfold hget in Hv. unfold is_hash.
    destruct (s !! addressBookKey self (Number_toString A)) as [[]|]; try done.
    by eexists.
Qed.
End Etag.

Lemma hget_hash_or_free s k f x : hget s k f = Some x -> hash_or_free s k.
Proof. unfold hget, hash_or_free. by destruct (s !! k) as [[]|]. Qed.

(** ** An id set that does not parse *)

Lemma send_HGET_some k f s x :
  hget s k f = Some x -> send (HGET k f) s = (Ret (RBulk x), s).
Proof.
  unfold hget, send. simpl. intros Hx.
  destruct (s !! k) as [[]|]; try done. by rewrite Hx.
Qed.

Lemma collectValues_known `{Imports} properties values :
  Forall (fun p => recognized p.1 = true) properties ->
  exists values', collectValues properties values = inr values'.
Proof.
  intros Hall. revert values.
  induction Hall as [|[p v] ps Hp _ IH]; intros values; simpl.
  - by eexists.
  - unfold recognized in Hp. simpl in Hp.
    destruct (String.eqb p displaynameProp); [apply IH|].
    destruct (String.eqb p descriptionProp); [apply IH|done].
Qed.

(** ** The commands that the backend sends *)

Section Issued.
Context `{Runtime} `{Imports}.
Variable self : backend.
Variable Inv : store -> Prop.
Hypothesis Inv_issued : forall c s, issued self c -> Inv s -> Inv (exec1 c s).2.

Lemma Inv_read c s : read_only c = true -> Inv s -> Inv (send c s).2.
Proof. intros Hc Hs. by rewrite send_snd, exec1_read_only. Qed.

Lemma Inv_exec_all cs s : Forall (issued self) cs -> Inv s -> Inv (exec_all cs s).2.
Proof.
  intros Hcs. revert s. induction Hcs as [|c cs Hc _ IH]; intros s Hs; [done|].
  rewrite exec_all_cons. apply IH. by apply Inv_issued.
Qed.

Lemma Inv_bumpCtag b commands s :
  Forall (issued self) commands -> Inv s ->
  Inv (bumpCtag self (Number_toString b) commands s).2.
Proof.
  intros Hcs Hs. unfold bumpCtag. apply (bind_snd _ _ _ Inv).
  { by apply Inv_read. }
  intros r _. rewrite send_snd, exec1_read_only by done.
  destruct (reply_string r); [|done].
  rewrite multi_exec_snd. apply Inv_exec_all; [|done].
  apply Forall_app. split; [done|]. constructor; [|constructor].
  apply issued_ctag.
Qed.

Lemma Inv_perform r s : Inv s -> Inv (perform self r s).
Proof.
  intros Hs. destruct r; simpl.
  - by rewrite getAddressBooksForUser_pure.
  - unfold updateAddressBook.
    destruct (collectUpdates mutations []) as [updates|]; [|done].
    destruct (_ =? _)%nat; [done|].
    apply (bind_snd _ _ _ Inv); [by apply Inv_read|].
    intros r _. rewrite send_snd, exec1_read_only by done.
    destruct (reply_string r); [|done].
    rewrite bind_ret_snd, send_snd. apply Inv_issued; [|done]. apply issued_record.
  - unfold createAddressBook.
    destruct (collectValues _ _) as [property|values]; [done|].
    apply (bind_snd _ _ _ Inv); [by apply Inv_read|].
    intros res _. rewrite send_snd, exec1_read_only by done.
    assert (Hi : Inv (send (INCR (idKey self)) s).2).
    { rewrite send_snd. apply Inv_issued; [apply issued_counter|done]. }
    apply (bind_snd _ _ _ Inv); [done|].
    intros r _.
    destruct (match parse_ids res with inl _ => _ | inr ids => ids end); try done.
    rewrite multi_exec_snd. apply Inv_exec_all; [|done].
    constructor; [apply issued_ids|]. constructor; [apply issued_record|constructor].
  - unfold deleteAddressBook.
    apply (bind_snd _ _ _ Inv); [by apply Inv_read|].
    intros res _. rewrite send_snd, exec1_read_only by done.
    destruct (reply_string res) as [principalUri|]; [|done].
    apply (bind_snd _ _ _ Inv); [by apply Inv_read|].
    intros res' _. rewrite send_snd, exec1_read_only by done.
    destruct (removeId _ _) as [e|ids]; [done|].
    apply (bind_snd _ _ _ Inv); [by apply Inv_read|].
    intros res3 _. rewrite send_snd, exec1_read_only by done.
    destruct (fromMultiBulk res3) as [| | | | |cardUris|]; try done.
    rewrite multi_exec_snd. apply Inv_exec_all; [|done].
    apply Forall_app; split; [apply Forall_app; split|].
    + constructor; [apply issued_del_record|].
      constructor; [apply issued_del_index|constructor].
    + constructor; [apply issued_ids|constructor].
    + apply Forall_map, Forall_forall. intros u _. apply issued_del_card.
  - by rewrite getCards_pure.
  - by rewrite getCard_pure.
  - unfold createCard. rewrite bind_ret_snd. apply Inv_bumpCtag; [|done].
    constructor; [apply issued_card|]. constructor; [apply issued_zadd|constructor].
  - unfold updateCard. rewrite bind_ret_snd. apply Inv_bumpCtag; [|done].
    constructor; [apply issued_card|constructor].
  - unfold deleteCard. rewrite bind_ret_snd. apply Inv_bumpCtag; [|done].
    constructor; [apply issued_del_card|]. constructor; [apply issued_zrem|constructor].
Qed.

Lemma Inv_perform_all rs s : Inv s -> Inv (perform_all self rs s).
Proof.
  revert s. induction rs as [|r rs IH]; intros s Hs; [done|].
  simpl. apply IH. by apply Inv_perform.
Qed.
End Issued.

(** ** The counter only grows *)

Lemma redis_int_Number_toString z : redis_int (Number_toString z) = Some z.
Proof.
  unfold redis_int, Number_toString.
  rewrite NilZero.isi.
  - rewrite DecimalZ.of_to. by rewrite String.eqb_refl.
  - destruct z as [|p|p]; simpl; try done.
    intros [= Hp]. by apply (Unsigned.to_uint_nonnil p).
  - destruct z as [|p|p]; simpl; try done.
    intros [= Hp]. by apply (Unsigned.to_uint_nonnil p).
Qed.

Section Counter.
Variable self : backend.
Variable a : Z.
Hypothesis no_slash : occurrences "/" (addressBooksTableName self) = 0.
Hypothesis cards_not_ID : cardsTableName self <> "ID".

Lemma idKey_slashes : occurrences "/" (idKey self) = 1.
Proof. unfold idKey. rewrite occurrences_app, no_slash. reflexivity. Qed.

Lemma handed_out_other c s :
  command_key c <> idKey self -> handed_out self a s -> handed_out self a (exec1 c s).2.
Proof.
  intros Hk (n & Hn & Hle). exists n. split; [|done].
  unfold idCounter in *. by rewrite exec1_other.
Qed.

Lemma handed_out_INCR s :
  handed_out self a s -> handed_out self a (exec1 (INCR (idKey self)) s).2.
Proof.
  intros (n & Hn & Hle). unfold handed_out, idCounter in *. simpl.
  destruct (s !! idKey self) as [[v| |]|] eqn:Hs; simpl; rewrite ?Hs; try by eauto.
  - rewrite Hn. destruct (decide _); simpl; [|rewrite Hs; by eauto].
    rewrite lookup_insert_eq. exists (n + 1)%Z.
    split; [apply redis_int_Number_toString|lia].
  - rewrite lookup_insert_eq. exists 1%Z. split; [done|]. injection Hn as <-. lia.
Qed.

Lemma handed_out_issued c s :
  issued self c -> handed_out self a s -> handed_out self a (exec1 c s).2.
Proof.
  assert (Hcard : forall b cardUri,
            cardKey self (Number_toString b) cardUri <> idKey self).
  { intros b cardUri Hk. apply (f_equal (occurrences "/")) in Hk.
    rewrite idKey_slashes in Hk. unfold cardKey in Hk.
    rewrite !occurrences_app in Hk. simpl in Hk. lia. }
  assert (Hshared : sharedIndexKey self <> idKey self).
  { unfold sharedIndexKey, idKey. intros Hk%String.app_inj.
    change ("/" ++ ?x) with (String "/" x) in Hk. by injection Hk. }
  assert (Hrecord : forall b,
            addressBookKey self (Number_toString b) <> idKey self).
  { intros b Hk. by apply (idKey_ne self b). }
  intros Hc. destruct Hc; try apply handed_out_INCR;
    apply handed_out_other; simpl; try done.
  - unfold principalsKey, idKey. intros Hk%String.app_inj. discriminate.
  - intros Hk. apply (f_equal (occurrences "/")) in Hk.
    rewrite idKey_slashes in Hk. unfold cardsIndexKey in Hk.
    rewrite !occurrences_app, no_slash in Hk. simpl in Hk. lia.
Qed.
End Counter.

Lemma perform_all_keeps `{Runtime} `{Imports} self A n rs s :
  occurrences "/" (addressBooksTableName self) = 0 ->
  cardsTableName self <> "ID" ->
  handed_out self A s ->
  ctag_at_least (addressBookKey self (Number_toString A)) n s ->
  handed_out self A (perform_all self rs s) /\
  ctag_at_least (addressBookKey self (Number_toString A)) n (perform_all self rs s).
Proof.
  intros Hslash Hcards. revert s.
  induction rs as [|r rs IH]; intros s Hout Hs; [done|].
  simpl. apply IH.
  - apply Inv_perform; [|done]. intros c s0. by apply handed_out_issued.
  - apply perform_keeps; [done| |done].
    destruct Hout as (c & Hc & Hle). intros c' Hc'. congruence.
Qed.

(** ** The reference fragment of JSON reads back what it writes *)

Lemma strip_last_app c x : strip_last c (x ++ String c EmptyString) = Some x.
Proof.
  induction x as [|a x IH].
  - simpl. by rewrite Ascii.eqb_refl.
  - change (String a x ++ String c EmptyString)
      with (String a (x ++ String c EmptyString)).
    simpl. rewrite IH. by destruct x.
Qed.

Lemma uint_no_comma d : occurrences "," (NilEmpty.string_of_uint d) = 0.
Proof. induction d; simpl; auto. Qed.

Lemma Number_toString_no_comma z : occurrences "," (Number_toString z) = 0.
Proof.
  destruct z as [|p|p].
  - reflexivity.
  - rewrite Number_toString_pos. apply uint_no_comma.
  - rewrite Number_toString_neg. simpl. apply uint_no_comma.
Qed.

Lemma Number_toString_nonempty z : Number_toString z <> EmptyString.
Proof.
  intros Hz. pose proof (parseInt_Number_toString z) as Hp. by rewrite Hz in Hp.
Qed.

Lemma split_commas_plain a :
  occurrences "," a = 0 -> split_commas a = [a].
Proof.
  induction a as [|c a IH]; simpl; [done|].
  destruct (Ascii.eqb c ","); [done|]. intros Ha. by rewrite IH.
Qed.

Lemma split_commas_app a r :
  occurrences "," a = 0 ->
  split_commas (a ++ String "," r) = a :: split_commas r.
Proof.
  induction a as [|c a IH]; [done|].
  change (String c a ++ String "," r) with (String c (a ++ String "," r)).
  simpl. destruct (Ascii.eqb c ","); [done|]. intros Ha. by rewrite IH.
Qed.

Lemma split_commas_join x xs :
  Forall (fun a => occurrences "," a = 0) (x :: xs) ->
  split_commas (join "," (x :: xs)) = x :: xs.
Proof.
  revert x. induction xs as [|y xs IH]; intros x Hall.
  - simpl. apply split_commas_plain. by inversion Hall.
  - inversion Hall as [|? ? Hx Hrest]; subst.
    change (join "," (x :: y :: xs)) with (x ++ String "," (join "," (y :: xs))).
    by rewrite split_commas_app, IH.
Qed.

Lemma parse_integers_written ids :
  parse_integers (Number_toString <$> ids) = Some ((fun z => JNumber (Num z)) <$> ids).
Proof.
  induction ids as [|z ids IH]; [done|].
  rewrite !fmap_cons. cbn [parse_integers].
  by rewrite redis_int_Number_toString, IH.
Qed.

Lemma join_nonempty x xs : x <> EmptyString -> join "," (x :: xs) <> EmptyString.
Proof. destruct x; [done|]. intros _. by destruct xs. Qed.

(** The identifiers that [createAddressBook] and [deleteAddressBook] write
    with [JSON.stringify] are the ones that [JSON.parse] reads. *)
Lemma reference_runtime_round_trip (ids : list Z) :
  let v := JArray ((fun z => JNumber (Num z)) <$> ids) in
  @JSON_parse reference_runtime (@JSON_stringify reference_runtime v) = Some v.
Proof.
  simpl. rewrite <- list_fmap_compose.
  change (stringify ∘ (fun z => JNumber (Num z))) with Number_toString.
  change (EmptyString ++ ?x) with x. rewrite strip_last_app.
  destruct ids as [|z ids]; [done|].
  destruct (String.eqb_spec (join "," (Number_toString <$> z :: ids)) EmptyString)
    as [He|_].
  { rewrite fmap_cons in He. apply join_nonempty in He; [done|].
    apply Number_toString_nonempty. }
  rewrite fmap_cons, split_commas_join.
  - rewrite <- fmap_cons. by rewrite parse_integers_written.
  - rewrite <- fmap_cons. apply Forall_fmap, Forall_forall.
    intros a _. apply Number_toString_no_comma.
Qed.

(** ** Digests of one length *)

Lemma all_ascii_complete c : In c all_ascii.
Proof.
  unfold all_ascii. apply in_map_iff. exists (nat_of_ascii c). split.
  - apply ascii_nat_embedding.
  - apply in_seq. pose proof (nat_ascii_bounded c). lia.
Qed.

Lemma strings_of_length_complete x :
  In x (strings_of_length (String.length x)).
Proof.
  induction x as [|c x IH].
  - by left.
  - cbn [String.length strings_of_length]. apply in_flat_map.
    exists c. split; [apply all_ascii_complete|]. by apply in_map.
Qed.

Lemma length_flat_map_String (l : list string) (cs : list ascii) :
  List.length (flat_map (fun c => map (String c) l) cs) =
  List.length cs * List.length l.
Proof.
  induction cs as [|c cs IH]; [done|].
  cbn [flat_map]. rewrite List.length_app, List.length_map, IH. simpl. lia.
Qed.

Lemma strings_of_length_length n :
  List.length (strings_of_length n) = 256 ^ n.
Proof.
  induction n as [|n IH]; [done|].
  cbn [strings_of_length]. rewrite length_flat_map_String, IH.
  unfold all_ascii. rewrite List.length_map, List.length_seq.
  by rewrite Nat.pow_succ_r'.
Qed.

(** More bodies than digests: two of the bodies share a digest. *)
Lemma digests_of_one_length_collide (digest : string -> string) (n : nat) :
  (forall x, String.length (digest x) = n) ->
  exists a b, a <> b /\ digest a = digest b.
Proof.
  intros Hlen.
  set (bodies := (fun i => Number_toString (Z.of_nat i)) <$> seq 0 (S (256 ^ n))).
  destruct (list_pigeonhole (digest <$> bodies) (strings_of_length n))
    as (i1 & i2 & x & Hlt & H1 & H2).
  - intros y (a & -> & _)%list_elem_of_fmap. apply list_elem_of_In.
    rewrite <- (Hlen a). apply strings_of_length_complete.
  - unfold bodies. rewrite !length_fmap, length_seq, strings_of_length_length. lia.
  - apply list_lookup_fmap_Some in H1 as (a & -> & Ha).
    apply list_lookup_fmap_Some in H2 as (b & Hab & Hb).
    exists a, b. split; [|done].
    unfold bodies in Ha, Hb.
    apply list_lookup_fmap_Some in Ha as (j1 & -> & Hj1).
    apply list_lookup_fmap_Some in Hb as (j2 & -> & Hj2).
    apply lookup_seq in Hj1 as [-> _]. apply lookup_seq in Hj2 as [-> _].
    intros Heq%Number_toString_inj. lia.
Qed.

Lemma substring_length n x :
  n <= String.length x -> String.length (String.substring 0 n x) = n.
Proof.
  revert x. induction n as [|n IH]; intros x Hn.
  - by destruct x.
  - destruct x as [|c x]; simpl in *; [lia|]. rewrite IH; [done|lia].
Qed.

Lemma prefix_digest_length : @fixed_length_digest (reference_imports prefix_digest).
Proof.
  intros body. unfold md5, reference_imports, prefix_digest.
  apply substring_length. rewrite string_length_app. simpl. lia.
Qed.

(** * The specification, property by property *)

(** C1: each successful createCard, updateCard or deleteCard on an address
    book A whose stored ctag is n answers its callback and leaves the ctag at
    n + 1, written by the same batch as the other effects of the operation;
    and no run of requests to the backend leaves A's record with a ctag below
    n: after the run the record is gone or its ctag is a number not below n.
    Both parts are within the integers that a JavaScript number holds
    exactly: n and n + 1 for the first; for the second the ctag and the
    counter of identifiers stay within them however the run goes, each
    request adding at most one to either.  The second part is for table names
    that keep the keys apart (no slash in the one of the address books, the
    one of the cards is not "ID") and an identifier A that the counter has
    handed out. *)
Theorem card_mutations_bump_ctag `{Runtime} `{Imports} (self : backend)
    (s : store) (A n : Z) :
  ctagOf self s A = Some (Num n) ->
  safe_integer n ->
  safe_integer (n + 1) ->
  let id := Number_toString A in
  let bump := HSET (addressBookKey self id) "ctag" (Number_toString (n + 1)) in
  (forall cardUri cardData now,
     (createCard self A cardUri cardData now s).1 = Ret (etag cardData) /\
     (createCard self A cardUri cardData now s).2 =
       (exec_all [HMSET (cardKey self id cardUri)
                    [("carddata", cardData); ("lastmodified", Number_toString now)];
                  ZADD (sharedIndexKey self) now cardUri; bump] s).2 /\
     ctagOf self (createCard self A cardUri cardData now s).2 A = Some (Num (n + 1))) /\
  (forall cardUri cardData now,
     (updateCard self A cardUri cardData now s).1 = Ret (etag cardData) /\
     (updateCard self A cardUri cardData now s).2 =
       (exec_all [HMSET (cardKey self id cardUri)
                    [("carddata", cardData); ("lastmodified", Number_toString now)];
                  bump] s).2 /\
     ctagOf self (updateCard self A cardUri cardData now s).2 A = Some (Num (n + 1))) /\
  (forall cardUri,
     (deleteCard self A cardUri s).1 = Ret true /\
     (deleteCard self A cardUri s).2 =
       (exec_all [DEL (cardKey self id cardUri);
                  ZREM (sharedIndexKey self) cardUri; bump] s).2 /\
     ctagOf self (deleteCard self A cardUri s).2 A = Some (Num (n + 1))) /\
  (occurrences "/" (addressBooksTableName self) = 0 ->
   cardsTableName self <> "ID" ->
   forall (c : Z) (rs : list request),
     idCounter self s = Some c ->
     (A <= c)%Z ->
     safe_integer c ->
     safe_integer (c + Z.of_nat (List.length rs)) ->
     safe_integer (n + Z.of_nat (List.length rs)) ->
     ctag_at_least (addressBookKey self id) n (perform_all self rs s)).
Proof.
  intros Hc _ _ id bump.
  assert (Hv : exists v, hget s (addressBookKey self id) "ctag" = Some v /\
                         parseInt v = Num n).
  { unfold ctagOf in Hc. fold id in Hc. destruct (hget s _ _) as [v|]; [|done].
    exists v. split; [done|]. simpl in Hc. congruence. }
  destruct Hv as (v & Hv & Hn).
  assert (Hb : forall cs, (bumpCtag self id cs s).2 = (exec_all (cs ++ [bump]) s).2).
  { intros cs. rewrite (bumpCtag_run self s id v cs Hv), multi_exec_snd.
    by rewrite Hn. }
  repeat split.
  - by destruct (createCard_ctag self s A n cardUri cardData now Hc).
  - unfold createCard. by rewrite bind_ret_snd, Hb.
  - by destruct (createCard_ctag self s A n cardUri cardData now Hc).
  - by destruct (updateCard_ctag self s A n cardUri cardData now Hc).
  - unfold updateCard. by rewrite bind_ret_snd, Hb.
  - by destruct (updateCard_ctag self s A n cardUri cardData now Hc).
  - by destruct (deleteCard_ctag self s A n cardUri Hc).
  - unfold deleteCard. by rewrite bind_ret_snd, Hb.
  - by destruct (deleteCard_ctag self s A n cardUri Hc).
  - intros Hslash Hcards c rs Hcounter Hout _ _ _.
    apply perform_all_keeps; [done|done| |by apply ctagOf_at_least].
    by exists c.
Qed.

Lemma card_mutations_bump_ctag_witness :
  ctagOf example_backend
    (@createCard example_imports example_backend 1 "bob.vcf" "BEGIN:VCARD" 1000
       alice_store).2 1 = Some (Num 2) /\
  ctag_at_least (addressBookKey example_backend "1") 1
    (@perform_all reference_runtime example_imports example_backend
       [CreateAddressBook "alice" "work" []; DeleteCard 1 "bob.vcf";
        UpdateAddressBook 1 [("{DAV:}displayname", JString "Home")]]
       alice_store).
Proof.
  pose proof (@card_mutations_bump_ctag reference_runtime example_imports
                example_backend alice_store 1 1 eq_refl) as Hthm.
  destruct Hthm as (Hc & _ & _ & Hp).
  - unfold safe_integer. lia.
  - unfold safe_integer. lia.
  - split.
    + apply Hc.
    + apply (Hp eq_refl ltac:(discriminate) 1%Z).
      * vm_compute. reflexivity.
      * lia.
      * unfold safe_integer. lia.
      * unfold safe_integer. simpl. lia.
      * unfold safe_integer. simpl. lia.
Defined.

(** C2 (the code does otherwise): [createCard] puts the uri in the sorted set
    [addressbooks/cards], shared by all address books, and never touches the
    set [addressbooks/<id>/cards] that [getCards] reads.  With the default
    table names the index of A is the same before and after any [createCard]
    on A; and in the store where alice has the fresh address book 1, a
    successful [createCard(1, "bob.vcf", body)] is followed by a [getCards(1)]
    that answers the empty list. *)
Theorem createCard_misses_own_index :
  (forall (imports : Imports) (s : store) (A : Z) (cardUri cardData : string) (now : Z),
     (@createCard imports example_backend A cardUri cardData now s).2
       !! cardsIndexKey example_backend (Number_toString A)
     = s !! cardsIndexKey example_backend (Number_toString A)) /\
  (@createCard example_imports example_backend 1 "bob.vcf" bob_body 1000
     alice_store).1 = Ret (@etag example_imports bob_body) /\
  (@getCards example_imports example_backend 1
     (@createCard example_imports example_backend 1 "bob.vcf" bob_body 1000
        alice_store).2).1 = Ret [] /\
  (@createCard example_imports example_backend 1 "bob.vcf" bob_body 1000
     alice_store).2 !! "addressbooks/cards"
    = Some (RZSet {["bob.vcf" := 1000%Z]}).
Proof.
  split; [|evaluate].
  intros imports s A cardUri cardData now.
  unfold createCard. rewrite bind_ret_snd. unfold bumpCtag.
  apply (bind_snd _ _ _ (fun s' => s' !! _ = s !! _)).
  { by rewrite send_snd, exec1_read_only. }
  intros r _. rewrite send_snd, exec1_read_only by done.
  destruct (reply_string r); [|done].
  rewrite multi_exec_snd. apply exec_all_other.
  constructor; [|constructor; [|constructor; [|constructor]]]; simpl.
  - discriminate.
  - apply sharedIndexKey_ne_cardsIndexKey.
  - apply addressBookKey_ne_cardsIndexKey.
Qed.

(** C3 (the code does otherwise): after [createAddressBook("alice", "home", {})]
    on an empty server, [getAddressBooksForUser("alice")] answers exactly one
    entry and that entry has the uri, but its ctag property is [undefined]:
    [HMGET] asks for four fields and the row is read as if there were five,
    so the stored ctag, 1, comes back as the description and the description
    as the display name. *)
Theorem listed_ctag_is_undefined :
  hget alice_store "addressbooks/1" "ctag" = Some "1" /\
  (@getAddressBooksForUser reference_runtime example_imports example_backend
     "alice" alice_store).1 = Ret [home_row] /\
  ab_uri home_row = JString "home" /\
  ab_getctag home_row = JUndefined /\
  ab_description home_row = JString "1".
Proof. evaluate. Qed.

(** C4 (the code does otherwise): address book 1 of alice owns the cards c1
    and c2, all three created through the backend.  [deleteAddressBook(1)]
    reads the field [pricipaluri], which no record has, and the exception
    raised on the nil answer leaves the handler: the callback is never
    invoked and nothing is deleted; [getCard] still answers c1 and the
    listing of alice still has address book 1.  Were the field there, the
    deletion would complete and empty the listing, and still leave the cards:
    they are not in the index that it enumerates. *)
Theorem deleteAddressBook_never_completes :
  @deleteAddressBook reference_runtime example_imports example_backend 1
    two_cards_store = (Threw TypeError, two_cards_store) /\
  (@getCard example_imports example_backend 1 "c1" two_cards_store).1
    = Ret (Some c1_card) /\
  (@getAddressBooksForUser reference_runtime example_imports example_backend
     "alice" two_cards_store).1
    = Ret [{| ab_id := JNumber (Num 1);
              ab_uri := JString "home";
              ab_principaluri := JString "alice";
              ab_displayname := JString "null";
              ab_getctag := JUndefined;
              ab_description := JString "3" |}] /\
  (@deleteAddressBook reference_runtime example_imports example_backend 1
     two_cards_patched).1
    = Ret (RMulti [RInteger 1; RInteger 0; RInteger 0]) /\
  (@getAddressBooksForUser reference_runtime example_imports example_backend "alice"
     (@deleteAddressBook reference_runtime example_imports example_backend 1
        two_cards_patched).2).1 = Ret [] /\
  (@getCard example_imports example_backend 1 "c1"
     (@deleteAddressBook reference_runtime example_imports example_backend 1
        two_cards_patched).2).1 = Ret (Some c1_card).
Proof. evaluate. Qed.

(** C5 (the code does otherwise): [getCard] never answers the value [false].
    Whatever [Db.fromMultiBulk] makes of the reply, the branch that would
    pass [false] is behind [return callback], which returns the callback
    without calling it.  With the reference translation, a card that is not
    stored is answered as a record with empty fields; a card that is stored
    is answered with its uri, carddata and lastmodified. *)
Theorem getCard_never_absent :
  (forall (imports : Imports) (self : backend) (s : store) (A : Z) (cardUri : string),
     match (@getCard imports self A cardUri s).1 with
     | Ret None => False
     | _ => True
     end) /\
  (@getCard example_imports example_backend 1 "nobody.vcf" ∅).1
    = Ret (Some {| card_uri := JString "nobody.vcf";
                   carddata := JString EmptyString;
                   lastmodified := JString EmptyString |}) /\
  (@getCard example_imports example_backend 1 "c1" two_cards_store).1
    = Ret (Some c1_card).
Proof.
  split; [|evaluate].
  intros imports self s A cardUri. unfold getCard, bind.
  destruct (send _ s) as [[res|e|e|] s']; simpl; try done.
  destruct (js_truthy (fromMultiBulk res)); simpl; [|done].
  destruct (js_truthy (js_length (fromMultiBulk res))); simpl; [|done].
  by destruct (js_index (fromMultiBulk res) 0), (js_index (fromMultiBulk res) 1).
Qed.

(** C6 (amended): on an address book that exists, for a card whose key is
    free or holds a hash, [createCard] answers the digest of the body between
    double quotes and stores the body as carddata, so the etag is the quoted
    digest of what is stored.  An [updateCard] that follows answers the quoted
    digest of its own body, which it stores: the same etag when the body is
    the same, at any time.  The etag changes exactly when the digest of the
    stored body changes, hence only if the body changes. *)
Theorem etag_is_content_hash `{Imports} (self : backend) (s : store) (A : Z)
    (cardUri body : string) (now : Z) :
  is_Some (hget s (addressBookKey self (Number_toString A)) "ctag") ->
  hash_or_free s (cardKey self (Number_toString A) cardUri) ->
  let ck := cardKey self (Number_toString A) cardUri in
  let created := createCard self A cardUri body now s in
  created.1 = Ret (dquote ++ md5 body ++ dquote) /\
  hget created.2 ck "carddata" = Some body /\
  (forall body' now',
     let updated := updateCard self A cardUri body' now' created.2 in
     updated.1 = Ret (dquote ++ md5 body' ++ dquote) /\
     hget updated.2 ck "carddata" = Some body' /\
     (body' = body -> updated.1 = created.1) /\
     (updated.1 = created.1 <-> md5 body' = md5 body) /\
     (updated.1 <> created.1 -> body' <> body)).
Proof.
  intros [v Hv] Hfree ck created.
  assert (Hc : created =
    (Ret (etag body),
     (exec_all ([HMSET ck [("carddata", body); ("lastmodified", Number_toString now)];
                 ZADD (sharedIndexKey self) now cardUri] ++
                [HSET (addressBookKey self (Number_toString A)) "ctag"
                   (jsnum_toString (jsnum_incr (parseInt v)))])%list s).2)).
  { subst created. unfold createCard. by rewrite (bumpCtag_then _ _ _ _ _ v). }
  destruct (stored_after_write self s A cardUri body now v
              [ZADD (sharedIndexKey self) now cardUri] Hv Hfree) as [Hdata [v' Hv']].
  { constructor; [|constructor]. by do 3 eexists. }
  clearbody created. subst created. cbn [fst snd].
  set (s1 := (exec_all _ s).2) in *.
  split; [done|]. split; [done|].
  intros body' now'. set (updated := updateCard self A cardUri body' now' s1).
  assert (Hu : updated =
    (Ret (etag body'),
     (exec_all ([HMSET ck [("carddata", body'); ("lastmodified", Number_toString now')]] ++
                [HSET (addressBookKey self (Number_toString A)) "ctag"
                   (jsnum_toString (jsnum_incr (parseInt v')))])%list s1).2)).
  { subst updated. unfold updateCard. by rewrite (bumpCtag_then _ _ _ _ _ v'). }
  destruct (stored_after_write self s1 A cardUri body' now' v' []) as [Hdata' _].
  { done. }
  { by eapply hget_hash_or_free. }
  { constructor. }
  clearbody updated. subst updated. cbn [fst snd].
  split; [done|]. split; [exact Hdata'|]. split; [by intros ->|]. split.
  - split.
    + intros He. apply etag_inj. congruence.
    + intros He. unfold etag. by rewrite He.
  - intros Hne ->. by apply Hne.
Qed.

Lemma etag_is_content_hash_witness :
  (@createCard example_imports example_backend 1 "bob.vcf" bob_body 1000
     alice_store).1 = Ret (dquote ++ plain_digest bob_body ++ dquote) /\
  (@updateCard example_imports example_backend 1 "bob.vcf" bob_body 2000
     (@createCard example_imports example_backend 1 "bob.vcf" bob_body 1000
        alice_store).2).1
  = (@createCard example_imports example_backend 1 "bob.vcf" bob_body 1000
       alice_store).1.
Proof.
  destruct (@etag_is_content_hash example_imports example_backend alice_store 1
              "bob.vcf" bob_body 1000) as (Hc & _ & Hu).
  - exists "1". vm_compute. reflexivity.
  - vm_compute. exact I.
  - split; [exact Hc|].
    destruct (Hu bob_body 2000%Z) as (_ & _ & Hsame & _).
    by apply Hsame.
Defined.

(** C6, where the claim fails: a digest of fixed length, as each MD5 digest
    has 32 characters, cannot tell all bodies apart.  For every such digest
    there are two different bodies with the same etag, so that a body can
    change and the etag stay; for the digest made of the first 32 characters,
    two bodies that differ later are an example. *)
Lemma etag_repeats_across_bodies :
  (forall imports : Imports,
     @fixed_length_digest imports ->
     exists body body' : string,
       body <> body' /\ @etag imports body = @etag imports body') /\
  @fixed_length_digest (reference_imports prefix_digest) /\
  (let body := "BEGIN:VCARD;VERSION:3.0;FN:Bob Builder;TEL:1;END:VCARD" in
   let body' := "BEGIN:VCARD;VERSION:3.0;FN:Bob Builder;TEL:2;END:VCARD" in
   body <> body' /\
   @etag (reference_imports prefix_digest) body =
   @etag (reference_imports prefix_digest) body').
Proof.
  split; [|split].
  - intros imports Hlen.
    destruct (digests_of_one_length_collide (@md5 imports) 32 Hlen)
      as (a & b & Hne & Heq).
    exists a, b. split; [done|]. unfold etag. by rewrite Heq.
  - apply prefix_digest_length.
  - split; [discriminate|]. vm_compute. reflexivity.
Qed.

(** C7: [updateAddressBook] is all or nothing.  With a name that is not
    recognised among the mutations, the answer is [false] and the server is
    untouched; with no recognised name at all, likewise.  With recognised
    names only, and at least one, on an address book whose ctag reads n, with
    n and n + 1 among the integers that a JavaScript number holds exactly, the
    answer is [true] and the server differs by one [HMSET] on the record of the
    address book: the ctag becomes n + 1, each of displayname and description
    takes the value of the last mutation for it and keeps its old value when
    there is none, and the other fields stay. *)
Theorem updateAddressBook_all_or_nothing `{Runtime} `{Imports} (self : backend)
    (s : store) (A : Z) (mutations : list (string * jsval)) :
  let k := addressBookKey self (Number_toString A) in
  (Exists (fun p => recognized p.1 = false) mutations ->
   updateAddressBook self A mutations s = (Ret false, s)) /\
  (Forall (fun p => recognized p.1 = false) mutations ->
   updateAddressBook self A mutations s = (Ret false, s)) /\
  (mutations <> [] ->
   Forall (fun p => recognized p.1 = true) mutations ->
   forall h v n,
     s !! k = Some (RHash h) -> h !! "ctag" = Some v -> parseInt v = Num n ->
     safe_integer n -> safe_integer (n + 1) ->
     exists updates h',
       updateAddressBook self A mutations s = (Ret true, <[k := RHash h']> s) /\
       <[k := RHash h']> s =
         (exec1 (HMSET k (("ctag", Number_toString (n + 1)) :: hmset_args updates)) s).2 /\
       h' !! "ctag" = Some (Number_toString (n + 1)) /\
       (forall f, f = "displayname" \/ f = "description" ->
          h' !! f = match new_value f mutations with
                    | Some x => Some (js_toString x)
                    | None => h !! f
                    end) /\
       (forall f, f <> "ctag" -> f <> "displayname" -> f <> "description" ->
          h' !! f = h !! f)).
Proof.
  intros k.
  assert (Ha : Exists (fun p => recognized p.1 = false) mutations ->
               updateAddressBook self A mutations s = (Ret false, s)).
  { intros Hex. unfold updateAddressBook. by rewrite collectUpdates_unknown. }
  split; [done|]. split.
  { intros Hall. destruct mutations as [|m ms]; [done|].
    apply Ha. apply Exists_cons_hd. by inversion Hall. }
  intros Hne Hall h v n Hk Hv Hn _ _.
  destruct (collectUpdates_known mutations [] Hall) as (updates & Hc & Hnd & Hkeys & Hget).
  { constructor. }
  assert (Hctag : "ctag" ∉ updates.*1).
  { rewrite Hkeys. intros [Hin|Hex]; [by apply elem_of_nil in Hin|].
    apply Exists_exists in Hex as (p & _ & Hp). unfold field_of in Hp.
    repeat case_match; congruence. }
  assert (Hlen : (List.length updates =? 0)%nat = false).
  { destruct mutations as [|[p x] ms]; [done|].
    inversion Hall as [|? ? Hp _]; subst. simpl in Hp.
    apply field_of_recognized in Hp as [f Hf].
    assert (Hin : f ∈ updates.*1).
    { apply Hkeys. right. by apply Exists_cons_hd. }
    destruct updates; [by apply elem_of_nil in Hin|done]. }
  set (h' := hash_set_all (hmset_args updates) (<["ctag" := Number_toString (n + 1)]> h)).
  exists updates, h'.
  assert (Hrun : updateAddressBook self A mutations s = (Ret true, <[k := RHash h']> s)).
  { unfold updateAddressBook. rewrite Hc, Hlen. unfold bind, send. simpl.
    fold k. rewrite Hk, Hv. simpl. rewrite Hk, Hn. done. }
  split; [done|]. split.
  { simpl. by rewrite Hk. }
  subst h'. split; [|split].
  - rewrite hash_set_all_get, obj_get_None, lookup_insert_eq by done. done.
  - intros f Hf. rewrite hash_set_all_get, Hget by done. simpl.
    destruct (new_value f mutations); [done|].
    rewrite lookup_insert_ne; [done|]. by destruct Hf as [-> | ->].
  - intros f Hf1 Hf2 Hf3.
    rewrite hash_set_all_get, Hget, new_value_field by done. simpl.
    by rewrite lookup_insert_ne.
Qed.

Lemma updateAddressBook_all_or_nothing_witness :
  exists h',
    @updateAddressBook example_imports example_backend 1
      [("{DAV:}displayname", JString "Home")] alice_store
    = (Ret true, <["addressbooks/1" := RHash h']> alice_store) /\
    h' !! "ctag" = Some "2" /\
    h' !! "displayname" = Some "Home" /\
    h' !! "uri" = Some "home".
Proof.
  destruct (@updateAddressBook_all_or_nothing reference_runtime example_imports
              example_backend alice_store 1 [("{DAV:}displayname", JString "Home")])
    as (_ & _ & Hc).
  destruct (Hc ltac:(discriminate) ltac:(by repeat constructor)
              alice_record "1" 1%Z ltac:(vm_compute; reflexivity) ltac:(vm_compute; reflexivity)
              ltac:(vm_compute; reflexivity)
              ltac:(unfold safe_integer; lia) ltac:(unfold safe_integer; lia))
    as (updates & h' & Hrun & _ & Hctag & Hfields & Hother).
  exists h'. split; [exact Hrun|]. split; [exact Hctag|]. split.
  - rewrite (Hfields "displayname") by (by left). reflexivity.
  - rewrite (Hother "uri") by discriminate. vm_compute. reflexivity.
Defined.

(** C8: when the properties hold a name other than the two recognised ones,
    [createAddressBook] passes a [BadRequest] error to its callback and the
    server is left as it was: the id counter is not incremented, the id set
    of the principal is the same, and [getAddressBooksForUser] answers the
    same as before. *)
Theorem createAddressBook_rejects_unknown `{Runtime} `{Imports} (self : backend)
    (s : store) (principalUri url : string) (properties : list (string * jsval)) :
  Exists (fun p => recognized p.1 = false) properties ->
  exists property,
    recognized property = false /\
    createAddressBook self principalUri url properties s
      = (Fail (BadRequest ("Unknown property: " ++ property)), s) /\
    let s' := (createAddressBook self principalUri url properties s).2 in
    s' !! idKey self = s !! idKey self /\
    hget s' (principalsKey self) principalUri = hget s (principalsKey self) principalUri /\
    getAddressBooksForUser self principalUri s'
      = getAddressBooksForUser self principalUri s.
Proof.
  intros Hex. unfold createAddressBook.
  destruct (collectValues_unknown properties
              [("displayname", JNull); ("description", JNull);
               ("principaluri", JString principalUri); ("uri", JString url)] Hex)
    as (property & -> & Hp).
  exists property. by repeat split.
Qed.

Lemma createAddressBook_rejects_unknown_witness :
  exists property,
    @createAddressBook reference_runtime example_imports example_backend
      "alice" "work"
      [("{DAV:}displayname", JString "Work"); ("unknown-prop", JString "v")]
      alice_store
    = (Fail (BadRequest ("Unknown property: " ++ property)), alice_store).
Proof.
  destruct (@createAddressBook_rejects_unknown reference_runtime example_imports
              example_backend alice_store "alice" "work"
              [("{DAV:}displayname", JString "Work"); ("unknown-prop", JString "v")])
    as (property & Hp & Hr & _).
  - apply Exists_cons_tl, Exists_cons_hd. reflexivity.
  - exists property. exact Hr.
Defined.


(** C10 (the code does otherwise): the stored id set of a principal is a
    text that [JSON.parse] rejects.  [getAddressBooksForUser] passes the
    SyntaxError to its callback and does nothing else.  [createAddressBook]
    (with recognised properties, the counter answering an identifier that a
    JavaScript number holds exactly) goes on as from the empty set: it writes
    the id set of that one identifier and the new record.  [deleteAddressBook]
    has the same [catch], and does not get to it: before it reads the id set
    it reads the field [pricipaluri] of the record, which no record made by
    [createAddressBook] has, and the exception raised on the nil answer
    leaves the handler.  On the server where alice has address book 1 and her
    id set is not JSON, the listing answers the SyntaxError, a
    [createAddressBook] rewrites the id set as the one of the new address
    book alone, and [deleteAddressBook(1)] never calls back and deletes
    nothing.  Only on a record that has the misspelt field is the [catch]
    reached and the batch run as from the empty set. *)
Theorem unparsable_id_set_handling :
  (forall (runtime : Runtime) (imports : Imports) (self : backend) (s : store)
          (principalUri blob : string),
     hget s (principalsKey self) principalUri = Some blob ->
     JSON_parse blob = None ->
     getAddressBooksForUser self principalUri s = (Fail SyntaxError, s) /\
     (forall url properties id s1,
        Forall (fun p => recognized p.1 = true) properties ->
        exec1 (INCR (idKey self)) s = (RInteger id, s1) ->
        safe_integer id ->
        exists values,
          createAddressBook self principalUri url properties s =
          multi_exec
            [HSET (principalsKey self) principalUri
                  (JSON_stringify (JArray [JNumber (Num id)]));
             HMSET (addressBookKey self (Number_toString id))
                   (("ctag", "1") :: hmset_args values)] s1) /\
     (forall A,
        hash_or_free s (addressBookKey self (Number_toString A)) ->
        hget s (addressBookKey self (Number_toString A)) "pricipaluri" = None ->
        deleteAddressBook self A s = (Threw TypeError, s)) /\
     (forall A r cardUris,
        hget s (addressBookKey self (Number_toString A)) "pricipaluri"
          = Some principalUri ->
        send (ZRANGE_ALL (cardsIndexKey self (Number_toString A))) s = (Ret r, s) ->
        fromMultiBulk r = JArray cardUris ->
        deleteAddressBook self A s =
        multi_exec
          ([DEL (addressBookKey self (Number_toString A));
            DEL (cardsIndexKey self (Number_toString A));
            HSET (principalsKey self) principalUri (JSON_stringify (JArray []))] ++
           map (fun cardUri =>
                  DEL (cardKey self (Number_toString A) (js_toString cardUri)))
               cardUris)%list s)) /\
  hget garbled_alice_store "addressbooks/pricipalUri" "alice" = Some "not json" /\
  @JSON_parse reference_runtime "not json" = None /\
  hget garbled_alice_store "addressbooks/1" "principaluri" = Some "alice" /\
  @getAddressBooksForUser reference_runtime example_imports example_backend
    "alice" garbled_alice_store = (Fail SyntaxError, garbled_alice_store) /\
  hget (@createAddressBook reference_runtime example_imports example_backend
          "alice" "work" [] garbled_alice_store).2
       "addressbooks/pricipalUri" "alice" = Some "[2]" /\
  @deleteAddressBook reference_runtime example_imports example_backend
    1 garbled_alice_store = (Threw TypeError, garbled_alice_store).
Proof.
  split; [|evaluate].
  intros runtime imports self s principalUri blob Hblob Hparse.
  assert (Hids : parse_ids (RBulk blob) = inl SyntaxError).
  { unfold parse_ids. simpl. by rewrite Hparse. }
  split; [|split; [|split]].
  - unfold getAddressBooksForUser, bind.
    by rewrite (send_HGET_some _ _ _ _ Hblob), Hids.
  - intros url properties id s1 Hall Hincr _.
    destruct (collectValues_known properties
                [("displayname", JNull); ("description", JNull);
                 ("principaluri", JString principalUri); ("uri", JString url)] Hall)
      as [values Hvalues].
    exists values. unfold createAddressBook. rewrite Hvalues. unfold bind at 1.
    rewrite (send_HGET_some _ _ _ _ Hblob), Hids. unfold bind, send.
    by rewrite Hincr.
  - intros A Hk Hnone. unfold deleteAddressBook, bind, send. simpl.
    unfold hash_or_free, hget in Hk, Hnone.
    destruct (s !! addressBookKey self (Number_toString A)) as [[]|]; try done.
    by rewrite Hnone.
  - intros A r cardUris Hp Hr Hcards. unfold deleteAddressBook. unfold bind at 1.
    rewrite (send_HGET_some _ _ _ _ Hp).
    change (reply_string (RBulk ?x)) with (Some x). cbv beta iota.
    unfold bind at 1. rewrite (send_HGET_some _ _ _ _ Hblob), Hids.
    change (removeId A (JArray [])) with (@inr jserror _ (JArray [])). cbv beta iota.
    unfold bind. by rewrite Hr, Hcards.
Qed.

(** * Further properties of the backend *)

(** ** Reading *)

(** X1: the three reading methods, [getAddressBooksForUser], [getCards] and
    [getCard], leave the server as it is, whatever is stored and whatever
    they answer: error, exception or result. *)
Theorem reads_leave_server_unchanged `{Runtime} `{Imports} (self : backend)
    (s : store) :
  (forall principalUri, (getAddressBooksForUser self principalUri s).2 = s) /\
  (forall A, (getCards self A s).2 = s) /\
  (forall A cardUri, (getCard self A cardUri s).2 = s).
Proof.
  split; [|split].
  - intros p. apply getAddressBooksForUser_pure.
  - intros A. apply getCards_pure.
  - intros A u. apply getCard_pure.
Qed.

(** X2: [getAddressBooksForUser] for a principal without a stored id set
    does not answer the empty list: the exception raised on the nil reply is
    caught and passed to the callback as the error.  A stored text that is
    not JSON is passed on the same way, as a syntax error. *)
Theorem listing_without_id_set `{Runtime} `{Imports} (self : backend)
    (s : store) (principalUri : string) :
  hash_or_free s (principalsKey self) ->
  (hget s (principalsKey self) principalUri = None ->
   getAddressBooksForUser self principalUri s = (Fail TypeError, s)) /\
  (forall text,
     hget s (principalsKey self) principalUri = Some text ->
     JSON_parse text = None ->
     getAddressBooksForUser self principalUri s = (Fail SyntaxError, s)).
Proof.
  unfold hash_or_free, hget, getAddressBooksForUser, bind, send. simpl.
  intros Hk. destruct (s !! principalsKey self) as [[]|]; try done.
  split.
  - by intros ->.
  - intros text -> Hp. unfold parse_ids. simpl. by rewrite Hp.
Qed.

Lemma listing_without_id_set_witness :
  @getAddressBooksForUser reference_runtime example_imports example_backend
    "alice" ∅ = (Fail TypeError, ∅) /\
  @getAddressBooksForUser reference_runtime example_imports example_backend
    "alice" garbled_store = (Fail SyntaxError, garbled_store).
Proof.
  split.
  - apply (@listing_without_id_set reference_runtime example_imports
             example_backend ∅ "alice").
    + vm_compute. exact I.
    + reflexivity.
  - destruct (@listing_without_id_set reference_runtime example_imports
                example_backend garbled_store "alice") as [_ Hsyntax].
    + vm_compute. exact I.
    + apply (Hsyntax "not json"); vm_compute; reflexivity.
Defined.

(** ** Writing to an address book that is not there *)

Lemma bumpCtag_missing `{Imports} self id commands s :
  hash_or_free s (addressBookKey self id) ->
  hget s (addressBookKey self id) "ctag" = None ->
  bumpCtag self id commands s = (Threw TypeError, s).
Proof.
  unfold hash_or_free, hget, bumpCtag, bind, send. simpl.
  destruct (s !! addressBookKey self id) as [[]|]; try done.
  by intros _ ->.
Qed.

Lemma collectUpdates_nonempty `{Imports} mutations :
  Forall (fun p => recognized p.1 = true) mutations -> mutations <> [] ->
  exists updates, collectUpdates mutations [] = Some updates /\
                  (List.length updates =? 0)%nat = false.
Proof.
  intros Hall Hne.
  destruct (collectUpdates_known mutations [] Hall) as (u & Hu & _ & Hkeys & _).
  { constructor. }
  exists u. split; [done|].
  destruct mutations as [|[p v] rest]; [done|].
  apply Forall_cons in Hall as [Hp _]. simpl in Hp.
  apply field_of_recognized in Hp as [f Hf].
  assert (Hin : f ∈ u.*1).
  { apply Hkeys. right. by constructor. }
  destruct u; [|done]. by apply elem_of_nil in Hin.
Qed.

(** X3: on an address book whose record is missing, or has no ctag field,
    the three card mutations and an [updateAddressBook] with recognised
    properties raise inside the reply handler of the ctag lookup: the
    callback is never invoked and nothing is written. *)
Theorem writes_need_the_record `{Imports} (self : backend)
    (s : store) (A : Z) :
  hash_or_free s (addressBookKey self (Number_toString A)) ->
  hget s (addressBookKey self (Number_toString A)) "ctag" = None ->
  (forall cardUri cardData now,
     createCard self A cardUri cardData now s = (Threw TypeError, s)) /\
  (forall cardUri cardData now,
     updateCard self A cardUri cardData now s = (Threw TypeError, s)) /\
  (forall cardUri, deleteCard self A cardUri s = (Threw TypeError, s)) /\
  (forall mutations,
     Forall (fun p => recognized p.1 = true) mutations -> mutations <> [] ->
     updateAddressBook self A mutations s = (Threw TypeError, s)).
Proof.
  intros Hk Hc. repeat split.
  - intros. unfold createCard, bind. by rewrite bumpCtag_missing.
  - intros. unfold updateCard, bind. by rewrite bumpCtag_missing.
  - intros. unfold deleteCard, bind. by rewrite bumpCtag_missing.
  - intros mutations Hall Hne.
    destruct (collectUpdates_nonempty mutations Hall Hne) as (u & Hu & Hlen).
    unfold updateAddressBook. rewrite Hu, Hlen.
    unfold hash_or_free, hget in Hk, Hc. unfold bind, send. simpl.
    destruct (s !! addressBookKey self (Number_toString A)) as [[]|]; try done.
    by rewrite Hc.
Qed.

Lemma writes_need_the_record_witness :
  @createCard example_imports example_backend 2 "bob.vcf" bob_body 1000 alice_store
    = (Threw TypeError, alice_store) /\
  @updateAddressBook example_imports example_backend 2
    [("{DAV:}displayname", JString "Home")] alice_store
    = (Threw TypeError, alice_store).
Proof.
  destruct (@writes_need_the_record example_imports
              example_backend alice_store 2) as (Hcreate & _ & _ & Hupdate).
  - vm_compute. exact I.
  - vm_compute. reflexivity.
  - split.
    + apply Hcreate.
    + apply Hupdate; [|discriminate].
      constructor; [vm_compute; reflexivity|constructor].
Defined.

(** ** A ctag that is not a number *)

(** X4: when the stored ctag is an ASCII text that does not start with a
    number, a card mutation still answers as a success and stores the text
    [NaN] as the new ctag; the next mutation reads [NaN] again, so the ctag
    never changes afterwards. *)
Theorem unreadable_ctag_becomes_NaN `{Imports} (self : backend)
    (s : store) (A : Z) (v : string) :
  hget s (addressBookKey self (Number_toString A)) "ctag" = Some v ->
  ascii_only v = true ->
  parseInt v = NaN ->
  let stored s' := hget s' (addressBookKey self (Number_toString A)) "ctag" in
  (forall cardUri cardData now,
     (createCard self A cardUri cardData now s).1 = Ret (etag cardData) /\
     stored (createCard self A cardUri cardData now s).2 = Some "NaN") /\
  (forall cardUri cardData now,
     (updateCard self A cardUri cardData now s).1 = Ret (etag cardData) /\
     stored (updateCard self A cardUri cardData now s).2 = Some "NaN") /\
  (forall cardUri,
     (deleteCard self A cardUri s).1 = Ret true /\
     stored (deleteCard self A cardUri s).2 = Some "NaN") /\
  parseInt "NaN" = NaN.
Proof.
  intros Hv _ Hn stored.
  assert (Hh : is_hash s (addressBookKey self (Number_toString A))).
  { unfold hget in Hv. unfold is_hash.
    destruct (s !! addressBookKey self (Number_toString A)) as [[]|]; try done.
    by eexists. }
  repeat split; intros; subst stored; cbv beta.
  - unfold createCard. by rewrite (bumpCtag_then _ _ _ _ _ v).
  - unfold createCard. rewrite (bumpCtag_then _ _ _ _ _ v) by done. rewrite Hn.
    cbn [snd]. apply ctagOf_after_bump.
    apply is_hash_hash_or_free. rewrite !exec_all_cons. cbn [exec_all snd].
    by do 2 (apply is_hash_exec1; [|done|done|done]).
  - unfold updateCard. by rewrite (bumpCtag_then _ _ _ _ _ v).
  - unfold updateCard. rewrite (bumpCtag_then _ _ _ _ _ v) by done. rewrite Hn.
    cbn [snd]. apply ctagOf_after_bump.
    apply is_hash_hash_or_free. rewrite !exec_all_cons. cbn [exec_all snd].
    by apply is_hash_exec1.
  - unfold deleteCard. by rewrite (bumpCtag_then _ _ _ _ _ v).
  - unfold deleteCard. rewrite (bumpCtag_then _ _ _ _ _ v) by done. rewrite Hn.
    cbn [snd]. apply ctagOf_after_bump.
    rewrite !exec_all_cons. cbn [exec_all snd].
    by apply hash_or_free_ZREM, hash_or_free_DEL, is_hash_hash_or_free.
Qed.

Lemma unreadable_ctag_becomes_NaN_witness :
  hget (@updateCard example_imports example_backend 1 "bob.vcf" bob_body 1000
          (exec1 (HSET "addressbooks/1" "ctag" "v2") alice_store).2).2
       "addressbooks/1" "ctag" = Some "NaN".
Proof.
  apply (@unreadable_ctag_becomes_NaN example_imports
           example_backend
           (exec1 (HSET "addressbooks/1" "ctag" "v2") alice_store).2 1 "v2").
  - vm_compute. reflexivity.
  - reflexivity.
  - vm_compute. reflexivity.
Defined.

(** ** The identifier counter *)

(** X5: no run of requests lowers the counter or makes it unreadable: an
    identifier that has been handed out stays handed out, so that
    [createAddressBook] never issues it again.  This is for table names that
    keep the counter apart from the other keys. *)
Theorem identifiers_stay_handed_out `{Runtime} `{Imports} (self : backend)
    (a : Z) (s : store) (rs : list request) :
  occurrences "/" (addressBooksTableName self) = 0 ->
  cardsTableName self <> "ID" ->
  handed_out self a s ->
  handed_out self a (perform_all self rs s).
Proof.
  intros Hslash Hcards Hout.
  apply (Inv_perform_all self (handed_out self a)); [|done].
  intros c s0 Hc. by apply handed_out_issued.
Qed.

Lemma identifiers_stay_handed_out_witness :
  handed_out example_backend 1
    (@perform_all reference_runtime example_imports example_backend
       [CreateAddressBook "alice" "work" []; DeleteAddressBook 1;
        CreateCard 2 "bob.vcf" bob_body 1000]
       alice_store).
Proof.
  apply identifiers_stay_handed_out; [reflexivity|discriminate|].
  exists 1%Z. split; [vm_compute; reflexivity|lia].
Defined.

(** ** Creating an address book *)

Lemma send_HGET k f s :
  hash_or_free s k -> send (HGET k f) s = (Ret (opt_reply (hget s k f)), s).
Proof.
  unfold hash_or_free, hget, send. simpl.
  destruct (s !! k) as [[]|]; try done. by destruct (_ !! f).
Qed.

Lemma send_INCR self s c :
  idCounter self s = Some c -> (LLONG_MIN <= c < LLONG_MAX)%Z ->
  send (INCR (idKey self)) s =
  (Ret (RInteger (c + 1)), <[idKey self := RString (Number_toString (c + 1))]> s).
Proof.
  unfold idCounter, send. simpl.
  destruct (s !! idKey self) as [[v| |]|]; try done.
  - intros -> Hc. by rewrite decide_True.
  - by intros [= <-] _.
Qed.

Lemma collectValues_collectUpdates `{Imports} properties values updates :
  collectUpdates properties values = Some updates ->
  collectValues properties values = inr updates.
Proof.
  revert values. induction properties as [|[p v] ps IH]; intros values; simpl.
  - by intros [= ->].
  - destruct (String.eqb p displaynameProp); [apply IH|].
    destruct (String.eqb p descriptionProp); [apply IH|done].
Qed.

Section Create.
Context `{Runtime} `{Imports}.
Variable self : backend.
Variables (s : store) (principalUri url : string).
Variable properties : list (string * jsval).
Variables (l : list jsval) (c : Z).

Hypothesis known : Forall (fun p => recognized p.1 = true) properties.
Hypothesis ids_readable : hash_or_free s (principalsKey self).
Hypothesis ids_array :
  ids_or_empty (hget s (principalsKey self) principalUri) = JArray l.
Hypothesis counter : idCounter self s = Some c.
Hypothesis in_range : (LLONG_MIN <= c < LLONG_MAX)%Z.

Let id := (c + 1)%Z.
Let s1 : store := <[idKey self := RString (Number_toString id)]> s.
Let ids' := JArray (l ++ [JNumber (Num id)]).

Lemma createAddressBook_run :
  exists values,
    NoDup values.*1 /\
    (forall f, obj_get f values =
               match new_value f properties with
               | Some v => Some v
               | None => obj_get f [("displayname", JNull); ("description", JNull);
                                    ("principaluri", JString principalUri);
                                    ("uri", JString url)]
               end) /\
    createAddressBook self principalUri url properties s =
    multi_exec [HSET (principalsKey self) principalUri (JSON_stringify ids');
                HMSET (addressBookKey self (Number_toString id))
                      (("ctag", "1") :: hmset_args values)] s1.
Proof.
  destruct (collectUpdates_known properties
              [("displayname", JNull); ("description", JNull);
               ("principaluri", JString principalUri); ("uri", JString url)] known)
    as (values & Hv & Hnodup & _ & Hget).
  { apply (bool_decide_unpack _). vm_compute. exact I. }
  exists values. split; [done|]. split; [done|].
  unfold createAddressBook. rewrite (collectValues_collectUpdates _ _ _ Hv).
  unfold bind. rewrite send_HGET by done.
  unfold ids_or_empty in ids_array. rewrite ids_array.
  by rewrite (send_INCR _ _ c).
Qed.

Lemma created_store :
  let s' := (createAddressBook self principalUri url properties s).2 in
  (exists replies,
     (createAddressBook self principalUri url properties s).1 = Ret replies) /\
  (hash_or_free s (addressBookKey self (Number_toString id)) ->
   exists h,
     s' !! addressBookKey self (Number_toString id) = Some (RHash h) /\
     h !! "ctag" = Some "1" /\
     h !! "uri" = Some url /\
     h !! "principaluri" = Some principalUri /\
     h !! "displayname" = Some (initial_text "displayname" properties) /\
     h !! "description" = Some (initial_text "description" properties)) /\
  hget s' (principalsKey self) principalUri = Some (JSON_stringify ids') /\
  s' !! idKey self = Some (RString (Number_toString id)).
Proof.
  destruct createAddressBook_run as (values & Hnodup & Hget & ->).
  cbv zeta. split; [apply multi_exec_fst|].
  rewrite multi_exec_snd, !exec_all_cons. cbn [exec_all snd].
  assert (Hpk : hash_or_free s1 (principalsKey self)).
  { unfold hash_or_free, s1. rewrite lookup_insert_ne; [done|].
    unfold idKey, principalsKey. intros Hk%String.app_inj. discriminate. }
  split; [|split].
  - intros Hfree.
    set (s2 := (exec1 (HSET _ _ _) s1).2).
    assert (Hs2 : s2 !! addressBookKey self (Number_toString id)
                  = s !! addressBookKey self (Number_toString id)).
    { unfold s2. rewrite exec1_other by (simpl; apply principalsKey_ne).
      unfold s1. rewrite lookup_insert_ne; [done|]. apply idKey_ne. }
    assert (Hfields : forall h0,
      let h := hash_set_all (hmset_args values) (<["ctag" := "1"]> h0) in
      h !! "ctag" = Some "1" /\
      h !! "uri" = Some url /\
      h !! "principaluri" = Some principalUri /\
      h !! "displayname" = Some (initial_text "displayname" properties) /\
      h !! "description" = Some (initial_text "description" properties)).
    { intros h0 h. subst h. rewrite !hash_set_all_get, !Hget by done.
      rewrite !(new_value_field "ctag"), !(new_value_field "uri"),
        !(new_value_field "principaluri") by done.
      unfold initial_text. cbn [obj_get String.eqb Ascii.eqb Bool.eqb].
      rewrite lookup_insert_eq. repeat split; try done.
      - by destruct (new_value "displayname" properties).
      - by destruct (new_value "description" properties). }
    unfold hash_or_free in Hfree. simpl. rewrite Hs2.
    destruct (s !! addressBookKey self (Number_toString id)) as [[h0| |]|];
      try done; cbn [snd]; eexists; (split; [apply lookup_insert_eq|apply Hfields]).
  - rewrite hget_HMSET_other.
    + by apply hget_HSET.
    + intros [Heq _]. by apply principalsKey_ne in Heq.
  - rewrite !exec1_other.
    + unfold s1. apply lookup_insert_eq.
    + simpl. unfold idKey, principalsKey. intros Hk%String.app_inj. discriminate.
    + simpl. intros Heq. symmetry in Heq. by apply idKey_ne in Heq.
Qed.

End Create.

(** X6: what a successful [createAddressBook] leaves on the server.  When
    the properties are recognised, the id set stored for the principal is an
    array (or is missing or unreadable, and taken as empty), the counter
    stands at c, with c + 1 an integer that a JavaScript number holds exactly,
    and the key of record c + 1 is free or a hash, the callback
    is answered with the replies of the batch, the counter stands at c + 1,
    the id set of the principal is the old one followed by c + 1, and the
    record c + 1 has the ctag 1, the uri, the principal and the two
    properties, as the text [null] where none is given. *)
Theorem createAddressBook_effects `{Runtime} `{Imports} (self : backend)
    (s : store) (principalUri url : string)
    (properties : list (string * jsval)) (l : list jsval) (c : Z) :
  Forall (fun p => recognized p.1 = true) properties ->
  hash_or_free s (principalsKey self) ->
  ids_or_empty (hget s (principalsKey self) principalUri) = JArray l ->
  idCounter self s = Some c ->
  safe_integer (c + 1) ->
  hash_or_free s (addressBookKey self (Number_toString (c + 1))) ->
  let s' := (createAddressBook self principalUri url properties s).2 in
  let record := hget s' (addressBookKey self (Number_toString (c + 1))) in
  (exists replies,
     (createAddressBook self principalUri url properties s).1 = Ret replies) /\
  idCounter self s' = Some (c + 1)%Z /\
  hget s' (principalsKey self) principalUri =
    Some (JSON_stringify (JArray (l ++ [JNumber (Num (c + 1))]))) /\
  record "ctag" = Some "1" /\
  record "uri" = Some url /\
  record "principaluri" = Some principalUri /\
  record "displayname" = Some (initial_text "displayname" properties) /\
  record "description" = Some (initial_text "description" properties).
Proof.
  intros Hknown Hpk Hids Hc Hsafe Hfree s' record.
  assert (Hrange : (LLONG_MIN <= c < LLONG_MAX)%Z).
  { unfold safe_integer in Hsafe. unfold LLONG_MIN, LLONG_MAX. lia. }
  destruct (created_store self s principalUri url properties l c
              Hknown Hpk Hids Hc Hrange) as (Hret & Hrec & Hset & Hid).
  destruct (Hrec Hfree) as (h & Hh & Hfields).
  split; [done|]. split.
  { unfold idCounter. subst s'. rewrite Hid. apply redis_int_Number_toString. }
  split; [done|].
  subst record s'. unfold hget. by rewrite Hh.
Qed.

Lemma createAddressBook_effects_witness :
  let s' := (@createAddressBook reference_runtime example_imports example_backend
               "carol" "home" [("{DAV:}displayname", JString "Home")]
               carol_store).2 in
  idCounter example_backend s' = Some 4%Z /\
  hget s' "addressbooks/pricipalUri" "carol" = Some "[3,4]" /\
  hget s' "addressbooks/4" "displayname" = Some "Home" /\
  hget s' "addressbooks/4" "description" = Some "null".
Proof.
  destruct (@createAddressBook_effects reference_runtime example_imports
              example_backend carol_store "carol" "home"
              [("{DAV:}displayname", JString "Home")] [JNumber (Num 3)] 3)
    as (_ & Hid & Hset & _ & _ & _ & Hname & Hdesc).
  - constructor; [vm_compute; reflexivity|constructor].
  - vm_compute. exact I.
  - vm_compute. reflexivity.
  - vm_compute. reflexivity.
  - unfold safe_integer. lia.
  - vm_compute. exact I.
  - cbv zeta. split; [exact Hid|]. split; [exact Hset|]. split; [exact Hname|exact Hdesc].
Defined.

(** ** Batches of reads, and rows *)

Lemma exec_all_reads cs s :
  forallb read_only cs = true ->
  exec_all cs s = (map (fun c => (exec1 c s).1) cs, s).
Proof.
  induction cs as [|c cs IH]; [done|]. simpl. intros [Hc Hcs]%andb_prop.
  pose proof (exec1_read_only c s Hc) as Hs.
  destruct (exec1 c s) as [rep s1]. simpl in Hs. subst s1.
  by rewrite IH.
Qed.

Lemma map_idx_app {A B} (f : A -> nat -> jserror + B) i xs ys :
  map_idx f i (xs ++ ys)%list =
  match map_idx f i xs with
  | inl e => inl e
  | inr a =>
      match map_idx f (i + List.length xs) ys with
      | inl e => inl e
      | inr b => inr (a ++ b)%list
      end
  end.
Proof.
  revert i. induction xs as [|x xs IH]; intros i; simpl.
  - rewrite Nat.add_0_r. by destruct (map_idx f i ys).
  - destruct (f x i); [done|]. rewrite IH.
    destruct (map_idx f (S i) xs); [done|].
    replace (S i + List.length xs) with (i + S (List.length xs)) by lia.
    by destruct (map_idx f _ ys).
Qed.

Lemma Forall_map_all {A B} (P : B -> Prop) (f : A -> B) (l : list A) :
  (forall x, P (f x)) -> Forall P (map f l).
Proof. intros Hall. induction l; simpl; by constructor. Qed.

Lemma Db_item_indexable r :
  let v := match r with
           | RNil => JString EmptyString
           | _ => Db_fromMultiBulk r
           end in
  v <> JUndefined /\ v <> JNull.
Proof. by destruct r. Qed.

Lemma addressBookRows_total `{Imports} ids i items :
  Forall (fun v => v <> JUndefined /\ v <> JNull) items ->
  exists rows, map_idx (addressBookRow ids) i items = inr rows /\
               List.length rows = List.length items.
Proof.
  intros Hall. revert i. induction Hall as [|v items [Hu Hn] _ IH]; intros i.
  - by exists [].
  - destruct (IH (S i)) as (rows & Hrows & Hlen). simpl. rewrite Hrows.
    destruct v; try done; eexists; (split; [reflexivity|]); simpl; by rewrite Hlen.
Qed.



(** X8: an id set that parses to something other than an array costs an
    identifier.  [createAddressBook] increments the counter before it
    appends to the set; the append raises inside the reply handler, so the
    callback is never invoked, no record is written, and the identifier
    c + 1 is spent. *)
Theorem createAddressBook_spends_identifier `{Runtime} `{Imports}
    (self : backend) (s : store) (principalUri url : string)
    (properties : list (string * jsval)) (c : Z) :
  Forall (fun p => recognized p.1 = true) properties ->
  hash_or_free s (principalsKey self) ->
  (forall l, ids_or_empty (hget s (principalsKey self) principalUri) <> JArray l) ->
  idCounter self s = Some c ->
  (LLONG_MIN <= c < LLONG_MAX)%Z ->
  createAddressBook self principalUri url properties s =
    (Threw TypeError, <[idKey self := RString (Number_toString (c + 1))]> s).
Proof.
  intros Hknown Hpk Hids Hc Hrange.
  destruct (collectValues_known properties
              [("displayname", JNull); ("description", JNull);
               ("principaluri", JString principalUri); ("uri", JString url)] Hknown)
    as (values & Hv).
  unfold createAddressBook. rewrite Hv.
  unfold bind. rewrite send_HGET by done.
  unfold ids_or_empty in Hids. rewrite (send_INCR _ _ c) by done.
  destruct (match parse_ids _ with inr ids => ids | inl _ => JArray [] end);
    try done.
  by destruct (Hids elems).
Qed.

Lemma createAddressBook_spends_identifier_witness :
  @createAddressBook lenient_runtime example_imports example_backend
    "alice" "home" [] null_ids_store =
  (Threw TypeError, <["addressbooks/ID" := RString "1"]> null_ids_store).
Proof.
  apply (@createAddressBook_spends_identifier lenient_runtime example_imports
           example_backend null_ids_store "alice" "home" [] 0).
  - constructor.
  - vm_compute. exact I.
  - intros l. vm_compute. discriminate.
  - vm_compute. reflexivity.
  - unfold LLONG_MIN, LLONG_MAX. lia.
Defined.

(** ** Deleting an address book *)

Lemma exec1_DEL_lookup k' s k :
  (exec1 (DEL k') s).2 !! k = if decide (k = k') then None else s !! k.
Proof.
  simpl. destruct (s !! k') eqn:Hk'; simpl.
  - destruct (decide (k = k')) as [->|Hne].
    + apply lookup_delete_eq.
    + by apply lookup_delete_ne.
  - destruct (decide (k = k')) as [->|Hne]; done.
Qed.

Lemma exec_all_DELs_absent {A} (g : A -> string) us s k :
  s !! k = None -> (exec_all (map (fun u => DEL (g u)) us) s).2 !! k = None.
Proof.
  revert s. induction us as [|u us IH]; intros s Hk; [done|].
  cbn [map]. rewrite exec_all_cons. apply IH.
  rewrite exec1_DEL_lookup. by destruct (decide _).
Qed.

Lemma exec_all_DELs_gone {A} (g : A -> string) us s u :
  u ∈ us -> (exec_all (map (fun u => DEL (g u)) us) s).2 !! g u = None.
Proof.
  revert s. induction us as [|u' us IH]; intros s Hin.
  - by apply elem_of_nil in Hin.
  - cbn [map]. rewrite exec_all_cons.
    apply elem_of_cons in Hin as [->|Hin]; [|by apply IH].
    apply exec_all_DELs_absent. rewrite exec1_DEL_lookup. by rewrite decide_True.
Qed.

Lemma exec_all_DELs_other {A} (g : A -> string) us s k :
  (forall u, u ∈ us -> k <> g u) ->
  (exec_all (map (fun u => DEL (g u)) us) s).2 !! k = s !! k.
Proof.
  intros Hne. apply exec_all_other. induction us as [|u us IH]; simpl.
  - constructor.
  - constructor.
    + simpl. intros Heq. apply (Hne u); [apply elem_of_cons; by left|done].
    + apply IH. intros u' Hin. apply Hne. apply elem_of_cons. by right.
Qed.

Lemma zset_members_elem z u : u ∈ zset_members z <-> is_Some (z !! u).
Proof.
  unfold zset_members. rewrite list_elem_of_fmap. split.
  - intros ([u' x] & -> & Hin). rewrite merge_sort_Permutation in Hin.
    apply elem_of_map_to_list in Hin. by eexists.
  - intros [x Hx]. exists (u, x). split; [done|].
    rewrite merge_sort_Permutation. by apply elem_of_map_to_list.
Qed.

Lemma send_ZRANGE_ALL k s z :
  scores s k = Some z ->
  send (ZRANGE_ALL k) s = (Ret (RMulti (RBulk <$> zset_members z)), s).
Proof.
  unfold scores, send. simpl. destruct (s !! k) as [[]|]; try done.
  - by intros [= ->].
  - intros [= <-]. unfold zset_members. by rewrite map_to_list_empty.
Qed.

Lemma Db_fromMultiBulk_bulks us :
  Db_fromMultiBulk (RMulti (RBulk <$> us)) = JArray (JString <$> us).
Proof.
  induction us as [|u us IH]; [done|]. simpl in *. injection IH as IH.
  do 2 f_equal. exact IH.
Qed.

Lemma principalsKey_ne_cardsIndexKey self id :
  principalsKey self <> cardsIndexKey self id.
Proof.
  unfold principalsKey, cardsIndexKey. intros Hk%String.app_inj.
  change ("/" ++ ?x) with (String "/" x) in Hk. injection Hk as Hk.
  apply (f_equal (occurrences "/")) in Hk.
  rewrite occurrences_app in Hk. simpl in Hk. lia.
Qed.

Lemma principalsKey_ne_cardKey self id cardUri :
  occurrences "/" (addressBooksTableName self) = 0 ->
  principalsKey self <> cardKey self id cardUri.
Proof.
  intros Hslash Hk. apply (f_equal (occurrences "/")) in Hk.
  unfold principalsKey, cardKey in Hk.
  rewrite !occurrences_app, Hslash in Hk. simpl in Hk. lia.
Qed.

(** X9: what a completed [deleteAddressBook] leaves on the server.  When the
    record of A has the field [pricipaluri] (it names the principal), the id
    set of the principal is readable and A can be taken out of it, the
    callback is answered with the replies of the batch; the record of A, the
    index of A and the record of every card that the index lists are gone;
    the id set of the principal is the one without A; and every other key is
    as it was.  This is with the reference translation of replies and an
    address-book table name without a slash. *)
Theorem deleteAddressBook_effects `{Runtime} (digest : string -> string)
    (self : backend) (s : store) (A : Z) (principalUri : string)
    (ids' : jsval) (z : gmap string Z) :
  let imports := reference_imports digest in
  let id := Number_toString A in
  occurrences "/" (addressBooksTableName self) = 0 ->
  hget s (addressBookKey self id) "pricipaluri" = Some principalUri ->
  hash_or_free s (principalsKey self) ->
  removeId A (ids_or_empty (hget s (principalsKey self) principalUri)) = inr ids' ->
  scores s (cardsIndexKey self id) = Some z ->
  let s' := (deleteAddressBook self A s).2 in
  let erased k :=
    k = addressBookKey self id \/ k = cardsIndexKey self id \/
    exists cardUri, is_Some (z !! cardUri) /\ k = cardKey self id cardUri in
  (exists replies, (deleteAddressBook self A s).1 = Ret replies) /\
  (forall k, erased k -> s' !! k = None) /\
  hget s' (principalsKey self) principalUri = Some (JSON_stringify ids') /\
  (forall k, ~ erased k -> k <> principalsKey self -> s' !! k = s !! k).
Proof.
  intros imports id Hslash Howner Hpk Hremove Hz s' erased.
  assert (Hrun : deleteAddressBook self A s =
            multi_exec
              ([DEL (addressBookKey self id); DEL (cardsIndexKey self id);
                HSET (principalsKey self) principalUri (JSON_stringify ids')] ++
               map (fun u => DEL (cardKey self id u)) (zset_members z))%list s).
  { unfold deleteAddressBook, bind. fold id.
    rewrite (send_HGET_some _ _ _ _ Howner). cbn [reply_string].
    rewrite send_HGET by done. unfold ids_or_empty in Hremove. rewrite Hremove.
    rewrite (send_ZRANGE_ALL _ _ z) by done.
    cbn [fromMultiBulk imports reference_imports].
    rewrite Db_fromMultiBulk_bulks. cbn [app]. do 5 f_equal.
    generalize (zset_members z). intros us.
    induction us as [|u us IH]; [done|]. simpl. f_equal. exact IH. }
  subst s'. rewrite Hrun. split; [apply multi_exec_fst|].
  rewrite multi_exec_snd, exec_all_app. cbn [snd].
  rewrite !exec_all_cons. cbn [exec_all snd].
  set (s1 := (exec1 (DEL (addressBookKey self id)) s).2).
  set (s2 := (exec1 (DEL (cardsIndexKey self id)) s1).2).
  set (s3 := (exec1 (HSET _ _ _) s2).2).
  assert (Hs2 : forall k, s2 !! k =
            if decide (k = cardsIndexKey self id) then None
            else if decide (k = addressBookKey self id) then None else s !! k).
  { intros k. unfold s2, s1. by rewrite !exec1_DEL_lookup. }
  assert (Hs3 : forall k, k <> principalsKey self -> s3 !! k = s2 !! k).
  { intros k Hk. unfold s3. by rewrite exec1_other. }
  split; [|split].
  - intros k [-> | [-> | (u & Hu & ->)]].
    + apply exec_all_DELs_absent. rewrite Hs3, Hs2.
      * destruct (decide _); [done|]. by rewrite decide_True.
      * intros Heq. symmetry in Heq. by apply principalsKey_ne in Heq.
    + apply exec_all_DELs_absent. rewrite Hs3, Hs2.
      * by rewrite decide_True.
      * intros Heq. symmetry in Heq. by apply principalsKey_ne_cardsIndexKey in Heq.
    + apply (exec_all_DELs_gone (cardKey self id)). by apply zset_members_elem.
  - unfold hget. rewrite exec_all_DELs_other.
    + apply hget_HSET. unfold hash_or_free. rewrite Hs2.
      rewrite decide_False by apply principalsKey_ne_cardsIndexKey.
      by rewrite decide_False by apply principalsKey_ne.
    + intros u _. by apply principalsKey_ne_cardKey.
  - intros k Hk Hne. rewrite exec_all_DELs_other.
    + rewrite Hs3, Hs2 by done.
      rewrite decide_False by (intros ->; apply Hk; right; by left).
      by rewrite decide_False by (intros ->; apply Hk; by left).
    + intros u Hu%zset_members_elem ->. apply Hk. right. right. by exists u.
Qed.

Lemma deleteAddressBook_effects_witness :
  let s' := (@deleteAddressBook reference_runtime example_imports example_backend
               1 indexed_store).2 in
  s' !! "addressbooks/1" = None /\
  s' !! "cards/1/c1" = None /\
  hget s' "addressbooks/pricipalUri" "alice" = Some "[]" /\
  s' !! "cards/1/c2" = indexed_store !! "cards/1/c2".
Proof.
  destruct (@deleteAddressBook_effects reference_runtime plain_digest
              example_backend indexed_store 1 "alice" (JArray [])
              {["c1" := 1000%Z]})
    as (_ & Hgone & Hset & Hkept).
  - reflexivity.
  - vm_compute. reflexivity.
  - vm_compute. exact I.
  - vm_compute. reflexivity.
  - vm_compute. reflexivity.
  - cbv zeta. split; [|split; [|split]].
    + apply Hgone. by left.
    + apply Hgone. right. right. exists "c1". split; [by eexists|reflexivity].
    + exact Hset.
    + apply Hkept; [|discriminate].
      intros [Hk | [Hk | (u & [x Hu] & Hk)]].
      * vm_compute in Hk. discriminate.
      * vm_compute in Hk. discriminate.
      * vm_compute in Hk. injection Hk as <-. vm_compute in Hu. discriminate.
Defined.

Lemma array_indexOf_absent A ids :
  A ∉ ids -> array_indexOf (JNumber (Num A)) (numbers ids) = None.
Proof.
  induction ids as [|x ids IH]; [done|]. intros Hin.
  apply not_elem_of_cons in Hin as [Hne Hin].
  change (array_indexOf (JNumber (Num A)) (numbers (x :: ids)))
    with (if (x =? A)%Z then Some 0
          else S <$> array_indexOf (JNumber (Num A)) (numbers ids)).
  destruct (Z.eqb_spec x A) as [->|_]; [done|]. by rewrite IH.
Qed.

Lemma array_indexOf_first A before after :
  A ∉ before ->
  array_indexOf (JNumber (Num A)) (numbers (before ++ A :: after)) =
  Some (List.length before).
Proof.
  induction before as [|x before IH]; intros Hin.
  - simpl. by rewrite Z.eqb_refl.
  - apply not_elem_of_cons in Hin as [Hne Hin].
    change (array_indexOf (JNumber (Num A)) (numbers ((x :: before) ++ A :: after)))
      with (if (x =? A)%Z then Some 0
            else S <$> array_indexOf (JNumber (Num A))
                         (numbers (before ++ A :: after))).
    destruct (Z.eqb_spec x A) as [->|_]; [done|]. by rewrite IH.
Qed.

(** X10: [deleteAddressBook] takes the identifier out of the id set at its
    first occurrence only, and keeps the other identifiers in their order; a
    set that does not list the identifier is written back as it is.  An
    identifier listed twice is therefore still listed after the deletion. *)
Theorem removeId_first_occurrence (A : Z) (before after : list Z) :
  A ∉ before ->
  removeId A (JArray (numbers (before ++ A :: after))) =
    inr (JArray (numbers (before ++ after))) /\
  removeId A (JArray (numbers before)) = inr (JArray (numbers before)).
Proof.
  intros Hin. unfold removeId.
  rewrite array_indexOf_first, array_indexOf_absent by done. split; [|done].
  do 2 f_equal. unfold array_splice1, numbers.
  rewrite !fmap_app, fmap_cons.
  rewrite take_app_length' by (by rewrite length_fmap).
  rewrite cons_middle, app_assoc, drop_app_length'; [done|].
  rewrite length_app, length_fmap. simpl. lia.
Qed.

Lemma removeId_first_occurrence_witness :
  removeId 2 (JArray (numbers [1; 2; 3; 2]%Z)) = inr (JArray (numbers [1; 3; 2]%Z)).
Proof.
  apply (removeId_first_occurrence 2 [1%Z] [3%Z; 2%Z]).
  intros Hin%list_elem_of_singleton. discriminate.
Defined.

(** ** Reading cards *)

Lemma HMGET_card s k :
  hash_or_free s k ->
  exec1 (HMGET k ["carddata"; "lastmodified"]) s =
  (RMulti [opt_reply (hget s k "carddata"); opt_reply (hget s k "lastmodified")], s).
Proof.
  unfold hash_or_free, hget. simpl. by destruct (s !! k) as [[]|].
Qed.

Lemma Db_fromMultiBulk_pair a b :
  Db_fromMultiBulk (RMulti [opt_reply a; opt_reply b]) =
  JArray [JString (default EmptyString a); JString (default EmptyString b)].
Proof. by destruct a, b. Qed.

Lemma card_rows_data self s id us :
  Forall (fun u => hash_or_free s (cardKey self id u)) us ->
  map (fun buffer => match buffer with
                     | RNil => JString EmptyString
                     | _ => Db_fromMultiBulk buffer
                     end)
      (map (fun c => (exec1 c s).1)
         (map (fun cardUri => HMGET (cardKey self id (js_toString cardUri))
                                    ["carddata"; "lastmodified"])
              (JString <$> us))) =
  map (fun u => JArray
         [JString (default EmptyString (hget s (cardKey self id u) "carddata"));
          JString (default EmptyString (hget s (cardKey self id u) "lastmodified"))])
      us.
Proof.
  induction 1 as [|u us Hu _ IH]; [done|].
  cbn [fmap list_fmap map js_toString]. rewrite (HMGET_card _ _ Hu). cbn [fst].
  rewrite Db_fromMultiBulk_pair. f_equal. exact IH.
Qed.

Lemma map_idx_cardRow (a b : string -> string) pre us :
  map_idx (cardRow (JString <$> (pre ++ us)%list)) (List.length pre)
    (map (fun u => JArray [JString (a u); JString (b u)]) us) =
  inr (map (fun u => {| card_uri := JString u;
                        carddata := JString (a u);
                        lastmodified := JString (b u) |}) us).
Proof.
  revert pre. induction us as [|u us IH]; intros pre; [done|].
  cbn [map map_idx]. unfold cardRow at 1. cbn [js_index nth].
  specialize (IH (pre ++ [u])%list).
  rewrite <- app_assoc, length_app, Nat.add_1_r in IH. cbn [app] in IH.
  rewrite IH. do 3 f_equal.
  rewrite fmap_app, fmap_cons.
  rewrite <- (length_fmap JString pre). apply nth_middle.
Qed.

Lemma getCard_reference (digest : string -> string) self s A cardUri :
  hash_or_free s (cardKey self (Number_toString A) cardUri) ->
  @getCard (reference_imports digest) self A cardUri s =
  (Ret (Some (stored_card self s A cardUri)), s).
Proof.
  intros Hk. unfold getCard, bind, send.
  rewrite (HMGET_card _ _ Hk). cbn [fromMultiBulk reference_imports].
  by rewrite Db_fromMultiBulk_pair.
Qed.

(** X11: what [getCard] answers, with the reference translation of replies.
    For a key that is free or holds a hash, the callback gets the uri that
    was asked for, with the stored carddata and lastmodified; a field that is
    not stored, as for a card that does not exist, comes as the empty string.
    For a key that holds a value of another type, the callback gets the
    error of the server. *)
Theorem getCard_answers_stored_card (digest : string -> string)
    (self : backend) (s : store) (A : Z) (cardUri : string) :
  let imports := reference_imports digest in
  let key := cardKey self (Number_toString A) cardUri in
  (hash_or_free s key ->
   getCard self A cardUri s = (Ret (Some (stored_card self s A cardUri)), s)) /\
  (~ hash_or_free s key ->
   getCard self A cardUri s = (Fail (RedisError WRONGTYPE), s)).
Proof.
  intros imports key. split.
  - apply getCard_reference.
  - unfold hash_or_free, getCard, bind, send. simpl. fold key.
    by destruct (s !! key) as [[]|].
Qed.

(** X12: [getCards] answers one card for each member of the index of the
    address book, in the order of the index (by score, then by uri), and each
    card is the one that [getCard] answers for that uri; an address book
    without an index has no cards.  This is with the reference translation
    of replies, for card keys that are free or hold a hash. *)
Theorem getCards_answers_index (digest : string -> string)
    (self : backend) (s : store) (A : Z) (z : gmap string Z) :
  let imports := reference_imports digest in
  scores s (cardsIndexKey self (Number_toString A)) = Some z ->
  Forall (fun u => hash_or_free s (cardKey self (Number_toString A) u))
         (zset_members z) ->
  getCards self A s = (Ret (stored_card self s A <$> zset_members z), s).
Proof.
  intros imports Hz Hkeys. unfold getCards, bind.
  rewrite (send_ZRANGE_ALL _ _ z) by done.
  cbn [fromMultiBulk imports reference_imports].
  rewrite Db_fromMultiBulk_bulks.
  unfold multi_exec. rewrite exec_all_reads by (by apply forallb_map_const).
  cbn [Db_fromMultiBulk]. rewrite card_rows_data by done.
  pose proof (map_idx_cardRow
    (fun u => default EmptyString
                (hget s (cardKey self (Number_toString A) u) "carddata"))
    (fun u => default EmptyString
                (hget s (cardKey self (Number_toString A) u) "lastmodified"))
    [] (zset_members z)) as Hrows.
  cbn [app List.length] in Hrows. cbv beta in Hrows. by rewrite Hrows.
Qed.

Lemma getCards_answers_index_witness :
  @getCards example_imports example_backend 1 indexed_store =
  (Ret [c1_card], indexed_store) /\
  @getCards example_imports example_backend 1 two_cards_store =
  (Ret [], two_cards_store).
Proof.
  split.
  - etrans.
    + apply (getCards_answers_index plain_digest example_backend indexed_store 1
               {["c1" := 1000%Z]}).
      * vm_compute. reflexivity.
      * replace (zset_members {["c1" := 1000%Z]}) with ["c1"]
          by (vm_compute; reflexivity).
        constructor; [vm_compute; exact I|constructor].
    + do 2 f_equal; vm_compute; reflexivity.
  - etrans.
    + apply (getCards_answers_index plain_digest example_backend two_cards_store
               1 ∅).
      * vm_compute. reflexivity.
      * replace (zset_members ∅) with (@nil string) by (vm_compute; reflexivity).
        constructor.
    + do 2 f_equal; vm_compute; reflexivity.
Defined.

(** ** Writing and deleting cards *)

Lemma hget_HMSET_second s k f1 x1 f2 x2 :
  hash_or_free s k ->
  hget (exec1 (HMSET k [(f1, x1); (f2, x2)]) s).2 k f2 = Some x2.
Proof.
  unfold hash_or_free, hget. simpl.
  destruct (s !! k) as [[]|]; try done; simpl;
    by rewrite lookup_insert_eq; simpl; rewrite lookup_insert_eq.
Qed.

Lemma card_after_write `{Imports} self s A cardUri cardData now v middle :
  hget s (addressBookKey self (Number_toString A)) "ctag" = Some v ->
  hash_or_free s (cardKey self (Number_toString A) cardUri) ->
  Forall (fun c => exists k sc m, c = ZADD k sc m) middle ->
  let s' :=
    (exec_all ((HMSET (cardKey self (Number_toString A) cardUri)
                  [("carddata", cardData); ("lastmodified", Number_toString now)]
                :: middle) ++
               [HSET (addressBookKey self (Number_toString A)) "ctag"
                  (jsnum_toString (jsnum_incr (parseInt v)))])%list s).2 in
  hget s' (cardKey self (Number_toString A) cardUri) "carddata" = Some cardData /\
  hget s' (cardKey self (Number_toString A) cardUri) "lastmodified" =
    Some (Number_toString now).
Proof.
  intros Hv Hfree Hmid s'. subst s'. rewrite exec_all_snoc, exec_all_cons.
  split; (rewrite hget_HSET_other; [|by intros [_ ?]]);
    (apply exec_all_ZADDs_hget; [done|]).
  - apply hget_HMSET_head; [done|]. by repeat constructor.
  - by apply hget_HMSET_second.
Qed.

(** X13: a card that has been written is read back.  After a [createCard]
    or an [updateCard] on an address book that has a ctag, for a card key
    that was free or held a hash, [getCard] answers the uri, the body as it
    was given and the time of the write as lastmodified.  This is with the
    reference translation of replies. *)
Theorem written_card_is_read_back (digest : string -> string)
    (self : backend) (s : store) (A : Z) (cardUri body : string) (now : Z)
    (v : string) :
  let imports := reference_imports digest in
  hget s (addressBookKey self (Number_toString A)) "ctag" = Some v ->
  hash_or_free s (cardKey self (Number_toString A) cardUri) ->
  let written := {| card_uri := JString cardUri;
                    carddata := JString body;
                    lastmodified := JString (Number_toString now) |} in
  (let s' := (createCard self A cardUri body now s).2 in
   getCard self A cardUri s' = (Ret (Some written), s')) /\
  (let s' := (updateCard self A cardUri body now s).2 in
   getCard self A cardUri s' = (Ret (Some written), s')).
Proof.
  intros imports Hv Hfree written. split; intros s'.
  - destruct (card_after_write self s A cardUri body now v
                [ZADD (sharedIndexKey self) now cardUri] Hv Hfree)
      as [Hdata Hmod].
    { constructor; [by do 3 eexists|constructor]. }
    assert (Hs' : s' = (exec_all
              ([HMSET (cardKey self (Number_toString A) cardUri)
                  [("carddata", body); ("lastmodified", Number_toString now)];
                ZADD (sharedIndexKey self) now cardUri] ++
               [HSET (addressBookKey self (Number_toString A)) "ctag"
                  (jsnum_toString (jsnum_incr (parseInt v)))])%list s).2).
    { subst s'. unfold createCard. by rewrite (bumpCtag_then _ _ _ _ _ v). }
    rewrite <- Hs' in Hdata, Hmod.
    unfold imports. rewrite getCard_reference by by eapply hget_hash_or_free.
    unfold stored_card. by rewrite Hdata, Hmod.
  - destruct (card_after_write self s A cardUri body now v [] Hv Hfree)
      as [Hdata Hmod]; [constructor|].
    assert (Hs' : s' = (exec_all
              ([HMSET (cardKey self (Number_toString A) cardUri)
                  [("carddata", body); ("lastmodified", Number_toString now)]] ++
               [HSET (addressBookKey self (Number_toString A)) "ctag"
                  (jsnum_toString (jsnum_incr (parseInt v)))])%list s).2).
    { subst s'. unfold updateCard. by rewrite (bumpCtag_then _ _ _ _ _ v). }
    rewrite <- Hs' in Hdata, Hmod.
    unfold imports. rewrite getCard_reference by by eapply hget_hash_or_free.
    unfold stored_card. by rewrite Hdata, Hmod.
Qed.

Lemma written_card_is_read_back_witness :
  let s' := (@updateCard example_imports example_backend 1 "c1" "BEGIN:VCARD" 3000
               two_cards_store).2 in
  @getCard example_imports example_backend 1 "c1" s' =
  (Ret (Some {| card_uri := JString "c1";
                carddata := JString "BEGIN:VCARD";
                lastmodified := JString (Number_toString 3000) |}), s').
Proof.
  apply (written_card_is_read_back plain_digest example_backend two_cards_store
           1 "c1" "BEGIN:VCARD" 3000 "3").
  - vm_compute. reflexivity.
  - vm_compute. exact I.
Defined.

Lemma scores_ZADD s k score member z :
  scores s k = Some z ->
  scores (exec1 (ZADD k score member) s).2 k = Some (<[member := score]> z).
Proof.
  unfold scores. simpl. destruct (s !! k) as [[]|]; try done.
  - intros [= ->]. simpl. by rewrite lookup_insert_eq.
  - intros [= <-]. simpl. by rewrite lookup_insert_eq, insert_empty.
Qed.

Lemma scores_ZREM s k member z :
  scores s k = Some z ->
  scores (exec1 (ZREM k member) s).2 k = Some (delete member z).
Proof.
  unfold scores. simpl. destruct (s !! k) as [[| |z0]|] eqn:Hk; try done.
  - intros [= ->]. destruct (z !! member) eqn:Hm; simpl.
    + destruct (decide (delete member z = ∅)) as [He|Hne].
      * by rewrite lookup_delete_eq, He.
      * by rewrite lookup_insert_eq.
    + rewrite Hk. by rewrite delete_id.
  - intros [= <-]. simpl. by rewrite Hk, delete_empty.
Qed.

Lemma scores_other c s k :
  command_key c <> k -> scores (exec1 c s).2 k = scores s k.
Proof. intros Hne. unfold scores. by rewrite exec1_other. Qed.

Lemma scores_not_hash s k k' f x z :
  scores s k = Some z -> hget s k' f = Some x -> k' <> k.
Proof.
  unfold scores, hget. intros Hz Hx ->. by destruct (s !! k) as [[]|].
Qed.

(** X14: where [createCard] files the card.  On an address book that has a
    ctag, when the shared index is a sorted set or free and is not the key
    of the card, the uri is put in the shared index with the time of the
    call as its score, next to the members that were there; a uri that was
    a member already gets the new score. *)
Theorem createCard_files_in_shared_index `{Imports} (self : backend)
    (s : store) (A : Z) (cardUri cardData : string) (now : Z) (v : string)
    (z : gmap string Z) :
  hget s (addressBookKey self (Number_toString A)) "ctag" = Some v ->
  cardKey self (Number_toString A) cardUri <> sharedIndexKey self ->
  scores s (sharedIndexKey self) = Some z ->
  scores (createCard self A cardUri cardData now s).2 (sharedIndexKey self) =
    Some (<[cardUri := now]> z).
Proof.
  intros Hv Hne Hz. unfold createCard.
  rewrite (bumpCtag_then _ _ _ _ _ v) by done. cbn [snd app].
  rewrite !exec_all_cons. cbn [exec_all snd].
  rewrite scores_other by (simpl; by eapply scores_not_hash).
  apply scores_ZADD. by rewrite scores_other.
Qed.

Lemma createCard_files_in_shared_index_witness :
  scores (@createCard example_imports example_backend 1 "c3" bob_body 3000
            two_cards_store).2 "addressbooks/cards" =
  Some (<["c3" := 3000%Z]> (<["c2" := 2000%Z]> {["c1" := 1000%Z]})).
Proof.
  apply (@createCard_files_in_shared_index example_imports example_backend
           two_cards_store 1 "c3" bob_body 3000 "3").
  - vm_compute. reflexivity.
  - vm_compute. discriminate.
  - vm_compute. reflexivity.
Defined.

(** X15: what [deleteCard] leaves on the server.  On an address book that
    has a ctag, with an address-book table name without a slash, a shared
    index that is a sorted set or free and is not the key of the card, the
    callback is answered [true], the record of the card is gone and the uri
    is out of the shared index, whose other members stay. *)
Theorem deleteCard_effects (self : backend) (s : store) (A : Z)
    (cardUri : string) (v : string) (z : gmap string Z) :
  occurrences "/" (addressBooksTableName self) = 0 ->
  hget s (addressBookKey self (Number_toString A)) "ctag" = Some v ->
  cardKey self (Number_toString A) cardUri <> sharedIndexKey self ->
  scores s (sharedIndexKey self) = Some z ->
  let s' := (deleteCard self A cardUri s).2 in
  (deleteCard self A cardUri s).1 = Ret true /\
  s' !! cardKey self (Number_toString A) cardUri = None /\
  scores s' (sharedIndexKey self) = Some (delete cardUri z).
Proof.
  intros Hslash Hv Hne Hz s'. subst s'. unfold deleteCard.
  rewrite (bumpCtag_then _ _ _ _ _ v) by done. cbn [fst snd app].
  split; [done|]. rewrite !exec_all_cons. cbn [exec_all snd]. split.
  - rewrite exec1_other by (simpl; intros Heq; symmetry in Heq;
                            by apply cardKey_ne in Heq).
    rewrite exec1_other by (simpl; congruence).
    rewrite exec1_DEL_lookup. by rewrite decide_True.
  - rewrite scores_other by (simpl; by eapply scores_not_hash).
    apply scores_ZREM. by rewrite scores_other.
Qed.

Lemma deleteCard_effects_witness :
  let s' := (deleteCard example_backend 1 "c1" two_cards_store).2 in
  s' !! "cards/1/c1" = None /\
  scores s' "addressbooks/cards" = Some (delete "c1" (<["c2" := 2000%Z]> {["c1" := 1000%Z]})).
Proof.
  destruct (deleteCard_effects example_backend two_cards_store
              1 "c1" "3" (<["c2" := 2000%Z]> {["c1" := 1000%Z]}))
    as (_ & Hgone & Hindex).
  - reflexivity.
  - vm_compute. reflexivity.
  - vm_compute. discriminate.
  - vm_compute. reflexivity.
  - cbv zeta. split; [exact Hgone|exact Hindex].
Defined.

(** ** The keys that a request touches *)

Lemma bumpCtag_frame self id commands s k :
  Forall (fun c => command_key c <> k) commands ->
  addressBookKey self id <> k ->
  (bumpCtag self id commands s).2 !! k = s !! k.
Proof.
  intros Hcs Hk. unfold bumpCtag.
  apply (bind_snd _ _ _ (fun s' => s' !! k = s !! k)).
  { by rewrite send_snd, exec1_read_only. }
  intros r _. rewrite send_snd, exec1_read_only by done.
  destruct (reply_string r); [|done].
  rewrite multi_exec_snd. apply exec_all_other.
  apply Forall_app. split; [done|]. by repeat constructor.
Qed.

(** X16: while the counter has not reached 2^53, so that the next
    identifier is an integer that a JavaScript number holds exactly, a
    request changes no key outside its own: the reading methods none; [updateAddressBook] the record of the address book; the card
    mutations the record of the card, the record of the address book and,
    for [createCard] and [deleteCard], the shared index; [createAddressBook]
    the counter, the id sets and the record of the next identifier;
    [deleteAddressBook] the record and the index of the address book, the id
    sets and the cards of the address book.  In particular no request on one
    address book changes the record, the index or a card of another, and
    [createCard] leaves the index of its own address book as it was. *)
Theorem requests_keep_other_keys `{Runtime} `{Imports} (self : backend)
    (r : request) (s : store) (k : string) :
  (forall c, idCounter self s = Some c -> safe_integer (c + 1)) ->
  ~ may_write self s r k -> perform self r s !! k = s !! k.
Proof.
  intros _ Hk. destruct r; simpl in *.
  - by rewrite getAddressBooksForUser_pure.
  - unfold updateAddressBook.
    destruct (collectUpdates mutations []) as [updates|]; [|done].
    destruct (_ =? _)%nat; [done|].
    apply (bind_snd _ _ _ (fun s' => s' !! k = s !! k)).
    { by rewrite send_snd, exec1_read_only. }
    intros r _. rewrite send_snd, exec1_read_only by done.
    destruct (reply_string r); [|done].
    rewrite bind_ret_snd, send_snd. apply exec1_other. simpl. congruence.
  - unfold createAddressBook.
    destruct (collectValues _ _) as [property|values]; [done|].
    apply (bind_snd _ _ _ (fun s' => s' !! k = s !! k)).
    { by rewrite send_snd, exec1_read_only. }
    intros res _. rewrite send_snd, exec1_read_only by done.
    assert (Hi : (send (INCR (idKey self)) s).2 !! k = s !! k).
    { rewrite send_snd. apply exec1_other. simpl. intros <-. apply Hk. by left. }
    apply (bind_snd _ _ _ (fun s' => s' !! k = s !! k)); [done|].
    intros r Hr.
    destruct (match parse_ids res with inl _ => _ | inr ids => ids end); try done.
    rewrite multi_exec_snd, exec_all_other; [done|].
    constructor; [|constructor; [|constructor]]; simpl.
    + intros <-. apply Hk. right. by left.
    + intros <-. apply Hk. right. right.
      destruct (INCR_reply _ _ _ Hr) as (c & -> & Hc). exists c. split; [|done].
      unfold idCounter. destruct (s !! idKey self) as [[]|]; try done.
      by subst c.
  - unfold deleteAddressBook.
    apply (bind_snd _ _ _ (fun s' => s' !! k = s !! k)).
    { by rewrite send_snd, exec1_read_only. }
    intros res _. rewrite send_snd, exec1_read_only by done.
    destruct (reply_string res) as [principalUri|]; [|done].
    apply (bind_snd _ _ _ (fun s' => s' !! k = s !! k)).
    { by rewrite send_snd, exec1_read_only. }
    intros res' _. rewrite send_snd, exec1_read_only by done.
    destruct (removeId _ _) as [e|ids]; [done|].
    apply (bind_snd _ _ _ (fun s' => s' !! k = s !! k)).
    { by rewrite send_snd, exec1_read_only. }
    intros res3 _. rewrite send_snd, exec1_read_only by done.
    destruct (fromMultiBulk res3) as [| | | | |cardUris|]; try done.
    rewrite multi_exec_snd. apply exec_all_other.
    apply Forall_app; split; [apply Forall_app; split|].
    + constructor; [|constructor; [|constructor]]; simpl.
      * intros <-. apply Hk. by left.
      * intros <-. apply Hk. right. by left.
    + constructor; [|constructor]. simpl.
      intros <-. apply Hk. right. right. by left.
    + apply Forall_map_all. intros u. simpl.
      intros <-. apply Hk. right. right. right. by eexists.
  - by rewrite getCards_pure.
  - by rewrite getCard_pure.
  - unfold createCard. rewrite bind_ret_snd. apply bumpCtag_frame.
    + constructor; [|constructor; [|constructor]]; simpl.
      * intros <-. apply Hk. by left.
      * intros <-. apply Hk. right. by left.
    + intros <-. apply Hk. right. by right.
  - unfold updateCard. rewrite bind_ret_snd. apply bumpCtag_frame.
    + constructor; [|constructor]; simpl.
      intros <-. apply Hk. by left.
    + intros <-. apply Hk. by right.
  - unfold deleteCard. rewrite bind_ret_snd. apply bumpCtag_frame.
    + constructor; [|constructor; [|constructor]]; simpl.
      * intros <-. apply Hk. by left.
      * intros <-. apply Hk. right. by left.
    + intros <-. apply Hk. right. by right.
Qed.

Lemma requests_keep_other_keys_witness :
  @perform reference_runtime example_imports example_backend
    (CreateCard 1 "c3" bob_body 3000) two_cards_store !! "addressbooks/1/cards" =
  two_cards_store !! "addressbooks/1/cards" /\
  @perform reference_runtime example_imports example_backend
    (DeleteAddressBook 1) indexed_store !! "cards/2/c1" =
  indexed_store !! "cards/2/c1".
Proof.
  split.
  - apply requests_keep_other_keys.
    + intros c Hc. vm_compute in Hc. injection Hc as <-.
      unfold safe_integer. lia.
    + intros [Hk | [Hk | Hk]]; vm_compute in Hk; discriminate.
  - apply requests_keep_other_keys.
    + intros c Hc. vm_compute in Hc. injection Hc as <-.
      unfold safe_integer. lia.
    + intros [Hk | [Hk | [Hk | [u Hk]]]]; vm_compute in Hk; discriminate.
Defined.

(** ** Listing address books *)

Lemma HMGET_record s k :
  hash_or_free s k ->
  exec1 (HMGET k ["uri"; "principaluri"; "description"; "ctag"]) s =
  (RMulti [opt_reply (hget s k "uri"); opt_reply (hget s k "principaluri");
           opt_reply (hget s k "description"); opt_reply (hget s k "ctag")], s).
Proof.
  unfold hash_or_free, hget. simpl. by destruct (s !! k) as [[]|].
Qed.

Lemma Db_fromMultiBulk_four a b c d :
  Db_fromMultiBulk (RMulti [opt_reply a; opt_reply b; opt_reply c; opt_reply d]) =
  JArray [JString (default EmptyString a); JString (default EmptyString b);
          JString (default EmptyString c); JString (default EmptyString d)].
Proof. by destruct a, b, c, d. Qed.

Lemma record_rows_data self s ids :
  Forall (fun id => hash_or_free s (addressBookKey self (js_toString id))) ids ->
  map (fun buffer => match buffer with
                     | RNil => JString EmptyString
                     | _ => Db_fromMultiBulk buffer
                     end)
      (map (fun c => (exec1 c s).1)
         (map (fun id => HMGET (addressBookKey self (js_toString id))
                               ["uri"; "principaluri"; "description"; "ctag"])
              ids)) =
  map (fun id =>
         let field f :=
           JString (default EmptyString
                      (hget s (addressBookKey self (js_toString id)) f)) in
         JArray [field "uri"; field "principaluri"; field "description";
                 field "ctag"])
      ids.
Proof.
  induction 1 as [|id ids Hid _ IH]; [done|].
  cbn [map]. rewrite (HMGET_record _ _ Hid). cbn [fst].
  rewrite Db_fromMultiBulk_four. f_equal. exact IH.
Qed.

Lemma map_idx_addressBookRow `{Imports} self s pre ids :
  map_idx (addressBookRow (pre ++ ids)%list) (List.length pre)
    (map (fun id =>
            let field f :=
              JString (default EmptyString
                         (hget s (addressBookKey self (js_toString id)) f)) in
            JArray [field "uri"; field "principaluri"; field "description";
                    field "ctag"])
         ids) =
  inr (listed_row self s <$> ids).
Proof.
  revert pre. induction ids as [|id ids IH]; intros pre; [done|].
  cbn [map map_idx]. unfold addressBookRow at 1. cbn [js_index nth].
  specialize (IH (pre ++ [id])%list).
  rewrite <- app_assoc, length_app, Nat.add_1_r in IH. cbn [app] in IH.
  rewrite IH. by rewrite nth_middle.
Qed.

(** X17: what [getAddressBooksForUser] answers, with the reference
    translation of replies.  When the id set of the principal is an array
    and the record keys of its identifiers are free or hold hashes, the
    callback gets one row for each identifier, in the order of the set.  The
    row has the identifier, the stored uri and principal; its ctag is always
    [undefined], its description is the stored ctag and its display name is
    the stored description: the stored display name is never read.  An
    empty id set gives the empty list. *)
Theorem listing_answers_records `{Runtime} (digest : string -> string)
    (self : backend) (s : store) (principalUri text : string)
    (ids : list jsval) :
  let imports := reference_imports digest in
  hget s (principalsKey self) principalUri = Some text ->
  JSON_parse text = Some (JArray ids) ->
  Forall (fun id => hash_or_free s (addressBookKey self (js_toString id))) ids ->
  getAddressBooksForUser self principalUri s =
    (Ret (listed_row self s <$> ids), s).
Proof.
  intros imports Htext Hparse Hkeys. unfold getAddressBooksForUser, bind.
  rewrite (send_HGET_some _ _ _ _ Htext). unfold parse_ids. cbn [reply_string].
  rewrite Hparse.
  unfold multi_exec. rewrite exec_all_reads by (by apply forallb_map_const).
  cbn [fromMultiBulk imports reference_imports Db_fromMultiBulk].
  rewrite record_rows_data by done.
  pose proof (@map_idx_addressBookRow imports self s [] ids) as Hrows.
  cbn [app List.length] in Hrows. cbv beta zeta in Hrows |- *. by rewrite Hrows.
Qed.


Lemma listing_answers_records_witness :
  @getAddressBooksForUser reference_runtime example_imports example_backend
    "carol" carol_store =
  (Ret [{| ab_id := JNumber (Num 3);
           ab_uri := JString "work";
           ab_principaluri := JString "carol";
           ab_displayname := JString "null";
           ab_getctag := JUndefined;
           ab_description := JString "1" |}], carol_store).
Proof.
  etrans.
  - apply (@listing_answers_records reference_runtime plain_digest example_backend
             carol_store "carol" "[3]" [JNumber (Num 3)]).
    + vm_compute. reflexivity.
    + vm_compute. reflexivity.
    + constructor; [vm_compute; exact I|constructor].
  - do 2 f_equal; vm_compute; reflexivity.
Defined.

(** ** Errors of the server *)

(** X18: when the counter cannot be incremented (its key holds something
    that is not an integer, or the largest one), [createAddressBook] passes
    the error of the server to the callback and writes nothing. *)
Theorem createAddressBook_needs_counter `{Runtime} `{Imports} (self : backend)
    (s : store) (principalUri url : string) (properties : list (string * jsval)) :
  Forall (fun p => recognized p.1 = true) properties ->
  hash_or_free s (principalsKey self) ->
  (forall c, idCounter self s = Some c -> (LLONG_MAX <= c)%Z) ->
  exists msg,
    createAddressBook self principalUri url properties s =
      (Fail (RedisError msg), s).
Proof.
  intros Hknown Hpk Hc.
  destruct (collectValues_known properties
              [("displayname", JNull); ("description", JNull);
               ("principaluri", JString principalUri); ("uri", JString url)] Hknown)
    as (values & Hv).
  unfold createAddressBook. rewrite Hv.
  unfold bind. rewrite send_HGET by done.
  unfold idCounter in Hc. unfold send. simpl.
  destruct (s !! idKey self) as [[x| |]|]; try by eexists.
  - destruct (redis_int x) as [n|]; [|by eexists].
    destruct (decide _) as [Hn|_]; [|by eexists].
    specialize (Hc n eq_refl). lia.
  - specialize (Hc 0%Z eq_refl). unfold LLONG_MAX in Hc. lia.
Qed.

Lemma createAddressBook_needs_counter_witness :
  exists msg,
    @createAddressBook reference_runtime example_imports example_backend
      "alice" "home" [] (<["addressbooks/ID" := RString "seven"]> ∅) =
    (Fail (RedisError msg), <["addressbooks/ID" := RString "seven"]> ∅).
Proof.
  apply (@createAddressBook_needs_counter reference_runtime example_imports
           example_backend (<["addressbooks/ID" := RString "seven"]> ∅)
           "alice" "home" []).
  - constructor.
  - vm_compute. exact I.
  - intros c Hc. vm_compute in Hc. discriminate.
Defined.

Lemma send_HGET_wrong k f s :
  ~ hash_or_free s k -> send (HGET k f) s = (Fail (RedisError WRONGTYPE), s).
Proof.
  unfold hash_or_free, send. simpl. by destruct (s !! k) as [[]|].
Qed.

(** X19: the error of the server reaches the callback, and nothing is
    written, when the key that a method reads first holds a value of another
    type: the id sets for [getAddressBooksForUser] and [createAddressBook];
    the record of the address book for the card mutations,
    [updateAddressBook] and [deleteAddressBook]; the index of the address
    book for [getCards]. *)
Theorem server_errors_reach_callback `{Runtime} `{Imports} (self : backend)
    (s : store) (A : Z) :
  let refused {T} (o : outcome T * store) := o = (Fail (RedisError WRONGTYPE), s) in
  (~ hash_or_free s (principalsKey self) ->
   (forall principalUri, refused (getAddressBooksForUser self principalUri s)) /\
   (forall principalUri url properties,
      Forall (fun p => recognized p.1 = true) properties ->
      refused (createAddressBook self principalUri url properties s))) /\
  (~ hash_or_free s (addressBookKey self (Number_toString A)) ->
   (forall cardUri cardData now, refused (createCard self A cardUri cardData now s)) /\
   (forall cardUri cardData now, refused (updateCard self A cardUri cardData now s)) /\
   (forall cardUri, refused (deleteCard self A cardUri s)) /\
   refused (deleteAddressBook self A s) /\
   (forall mutations,
      Forall (fun p => recognized p.1 = true) mutations -> mutations <> [] ->
      refused (updateAddressBook self A mutations s))) /\
  (scores s (cardsIndexKey self (Number_toString A)) = None ->
   refused (getCards self A s)).
Proof.
  intros refused. unfold refused. split; [|split].
  - intros Hk. split.
    + intros P. unfold getAddressBooksForUser, bind. by rewrite send_HGET_wrong.
    + intros P url properties Hknown.
      destruct (collectValues_known properties
                  [("displayname", JNull); ("description", JNull);
                   ("principaluri", JString P); ("uri", JString url)] Hknown)
        as (values & Hv).
      unfold createAddressBook, bind. rewrite Hv. by rewrite send_HGET_wrong.
  - intros Hk. repeat split.
    + intros. unfold createCard, bumpCtag, bind. by rewrite send_HGET_wrong.
    + intros. unfold updateCard, bumpCtag, bind. by rewrite send_HGET_wrong.
    + intros. unfold deleteCard, bumpCtag, bind. by rewrite send_HGET_wrong.
    + unfold deleteAddressBook, bind. by rewrite send_HGET_wrong.
    + intros mutations Hall Hne.
      destruct (collectUpdates_nonempty mutations Hall Hne) as (u & Hu & Hlen).
      unfold updateAddressBook, bind. rewrite Hu, Hlen.
      by rewrite send_HGET_wrong.
  - unfold scores, getCards, bind, send. simpl.
    by destruct (s !! cardsIndexKey self (Number_toString A)) as [[]|].
Qed.
